(** * get_add_distributors: the paginated table scraper

    A shallow embedding of [main.py] (the sequential scraper built on
    [requests]) and [async.py] (the task-based scraper built on [aiohttp]),
    and the properties of their pagination loop, page classification,
    table extraction, response decoding and failure behaviour.

    Layout
    - [Py]       : the fragments of Python the two files rely on (unicode
                   strings as code points, [dict], the two codecs,
                   exceptions).
    - [Soup]     : the BeautifulSoup tree and its [find] / [find_all] /
                   [text].
    - [Scraper]  : [process_page], the loop condition, responses, the
                   server, what a run prints and requests.
    - [Main]     : [get_add_distributors] of [main.py].
    - [Async]    : [fetch_page] and [get_add_distributors] of [async.py],
                   and where the created tasks may run.
    - [Fixtures] : sample pages and servers.
    - [Spec]     : the vocabulary of the statements.
    - Properties : lemmas by topic, the claims C1 to C10, and further
                   properties of the code, X1 to X16.

    The HTML parser ([BeautifulSoup(text, 'html.parser')]), the charset
    detector of [requests] and the server are parameters of the runs.  A
    loop that may go on for ever is given a number of iterations it may
    take ([fuel]); a run that has used them up is [Running]. *)

From Stdlib Require Import List String Ascii Bool Arith NArith Lia.
From Stdlib Require Import Strings.Byte.
From Stdlib Require Import DecimalString DecimalNat.
Import ListNotations.
Open Scope string_scope.
Open Scope list_scope.

(* ================================================================== *)
(** ** Python values *)

Module Py.

(** A Python [str] is a sequence of unicode code points.  Rocq's [string]
    holds 8-bit characters only, so text that went through a decoder is
    kept as a list of code points. *)
Definition str := list N.

(** An ASCII literal as a Python [str]. *)
Fixpoint lit (s : string) : str :=
  match s with
  | EmptyString => []
  | String c s' => N_of_ascii c :: lit s'
  end.

Definition str_eqb (a b : str) : bool :=
  if list_eq_dec N.eq_dec a b then true else false.

(** *** [dict]

    A [dict] keeps its keys in insertion order; assigning to a key that is
    already present replaces the value and leaves the key where it was. *)
Definition dict := list (str * str).

Fixpoint setitem (d : dict) (k v : str) : dict :=
  match d with
  | [] => [(k, v)]
  | (k', v') :: d' =>
      if str_eqb k' k then (k', v) :: d' else (k', v') :: setitem d' k v
  end.

(** [dict(pairs)]: the pairs are assigned one after the other. *)
Definition dict_of (pairs : list (str * str)) : dict :=
  fold_left (fun d kv => setitem d (fst kv) (snd kv)) pairs [].

Fixpoint get (d : dict) (k : str) : option str :=
  match d with
  | [] => None
  | (k', v') :: d' => if str_eqb k' k then Some v' else get d' k
  end.

Definition keys (d : dict) : list str := map fst d.

(** [zip] stops at the end of the shorter sequence: it is [List.combine]. *)
Definition zip {A B} (l : list A) (l' : list B) : list (A * B) := combine l l'.

(** *** Codecs

    [bytes.decode('ISO-8859-1')]: every byte is the code point of the same
    number; no byte sequence is rejected. *)
Definition decode_latin1 (b : list byte) : str := map Byte.to_N b.

(** [str.encode('ISO-8859-1')], defined on code points below 256. *)
Fixpoint encode_latin1 (s : str) : option (list byte) :=
  match s with
  | [] => Some []
  | c :: s' =>
      match Byte.of_N c, encode_latin1 s' with
      | Some b, Some bs => Some (b :: bs)
      | _, _ => None
      end
  end.

(** U+FFFD, what [errors='replace'] puts in place of undecodable input. *)
Definition REPLACEMENT : N := 65533%N.

Definition is_cont (b : byte) : bool :=
  let n := Byte.to_N b in ((128 <=? n) && (n <=? 191))%N.

Definition in_range (lo hi : N) (b : byte) : bool :=
  let n := Byte.to_N b in ((lo <=? n) && (n <=? hi))%N.

Definition low6 (b : byte) : N := (Byte.to_N b mod 64)%N.

(** The range the second byte of a three-byte sequence may take, by its
    lead byte (overlong forms and surrogates are excluded). *)
Definition second3 (lead : N) (b : byte) : bool :=
  if (lead =? 224)%N then in_range 160 191 b
  else if (lead =? 237)%N then in_range 128 159 b
  else is_cont b.

(** The same for four-byte sequences (overlong forms and code points
    beyond U+10FFFF are excluded). *)
Definition second4 (lead : N) (b : byte) : bool :=
  if (lead =? 240)%N then in_range 144 191 b
  else if (lead =? 244)%N then in_range 128 143 b
  else is_cont b.

(** [bytes.decode('utf-8', errors='replace')]: a well-formed sequence gives
    its code point; an ill-formed one gives one U+FFFD for its longest
    prefix that starts a well-formed sequence (one byte at least), and
    decoding resumes right after that prefix. *)
Fixpoint decode_utf8 (bs : list byte) : str :=
  match bs with
  | [] => []
  | b0 :: r0 =>
      let n0 := Byte.to_N b0 in
      if (n0 <? 128)%N then n0 :: decode_utf8 r0
      else if in_range 194 223 b0 then
        match r0 with
        | b1 :: r1 =>
            if is_cont b1
            then ((n0 mod 32) * 64 + low6 b1)%N :: decode_utf8 r1
            else REPLACEMENT :: decode_utf8 r0
        | [] => [REPLACEMENT]
        end
      else if in_range 224 239 b0 then
        match r0 with
        | b1 :: r1 =>
            if second3 n0 b1 then
              match r1 with
              | b2 :: r2 =>
                  if is_cont b2
                  then ((n0 mod 16) * 4096 + low6 b1 * 64 + low6 b2)%N
                       :: decode_utf8 r2
                  else REPLACEMENT :: decode_utf8 r1
              | [] => [REPLACEMENT]
              end
            else REPLACEMENT :: decode_utf8 r0
        | [] => [REPLACEMENT]
        end
      else if in_range 240 244 b0 then
        match r0 with
        | b1 :: r1 =>
            if second4 n0 b1 then
              match r1 with
              | b2 :: r2 =>
                  if is_cont b2 then
                    match r2 with
                    | b3 :: r3 =>
                        if is_cont b3
                        then ((n0 mod 8) * 262144 + low6 b1 * 4096
                              + low6 b2 * 64 + low6 b3)%N :: decode_utf8 r3
                        else REPLACEMENT :: decode_utf8 r2
                    | [] => [REPLACEMENT]
                    end
                  else REPLACEMENT :: decode_utf8 r1
              | [] => [REPLACEMENT]
              end
            else REPLACEMENT :: decode_utf8 r0
        | [] => [REPLACEMENT]
        end
      else REPLACEMENT :: decode_utf8 r0
  end.

(** The charsets a response can name: the two the files meet, and any
    other one (UTF-16, cp037, ...), given by what it decodes a body to;
    with [errors='replace'] every codec decodes every body. *)
Inductive codec :=
| ISO_8859_1
| UTF_8
| Codec (decoder : list byte -> str).

Definition decode (c : codec) (b : list byte) : str :=
  match c with
  | ISO_8859_1 => decode_latin1 b
  | UTF_8 => decode_utf8 b
  | Codec decoder => decoder b
  end.

(** What can be raised in the two files: the HTTP client's errors
    ([requests.RequestException] / [aiohttp.ClientError], a timeout among
    them) and the [AttributeError] of a method call on [None]. *)
Inductive fetch_failure := NetworkFailure | TimedOut.

Inductive exn :=
| ClientError (f : fetch_failure)
| AttributeError.

(** The outcome of evaluating something that may raise. *)
Definition raising (A : Type) := (exn + A)%type.
Definition ret {A} (a : A) : raising A := inr a.
Definition raise {A} (e : exn) : raising A := inl e.
Definition bind {A B} (m : raising A) (k : A -> raising B) : raising B :=
  match m with
  | inl e => inl e
  | inr a => k a
  end.

End Py.

Notation "x <- m ;; k" := (Py.bind m (fun x => k))
  (at level 61, m at next level, right associativity).

(* ================================================================== *)
(** ** The BeautifulSoup tree *)

Module Soup.

Import Py.

(** A parsed document is a tree of tags with strings at the leaves.  Of a
    tag's attributes only [class] is ever inspected; BeautifulSoup keeps it
    as the list of the whitespace-separated class names (empty when the
    attribute is missing).  A [Comment] is a string that is no part of the
    [text] of its ancestors. *)
#[local] Unset Elimination Schemes.
Inductive node :=
| NavigableString (s : str)
| Comment (s : str)
| Tag (name : string) (classes : list string) (contents : list node).
#[local] Set Elimination Schemes.

(** The BeautifulSoup object itself is a tag, named [[document]]. *)
Definition BeautifulSoup (contents : list node) : node :=
  Tag "[document]" [] contents.

(** [tag.descendants]: all nodes below a tag, in document order. *)
Fixpoint descendants (n : node) : list node :=
  match n with
  | Tag _ _ cs =>
      (fix over (l : list node) : list node :=
         match l with
         | [] => []
         | c :: l' => c :: descendants c ++ over l'
         end) cs
  | _ => []
  end.

Definition descendants_of_list (l : list node) : list node :=
  flat_map (fun c => c :: descendants c) l.

Definition is_tag (name : string) (n : node) : bool :=
  match n with
  | Tag name' _ _ => String.eqb name' name
  | _ => false
  end.

(** Matching [class_=c]: one of the tag's class names is [c]. *)
Definition has_class (c : string) (n : node) : bool :=
  match n with
  | Tag _ cls _ => existsb (String.eqb c) cls
  | _ => false
  end.

(** [tag.find_all(name)]. *)
Definition find_all (name : string) (n : node) : list node :=
  filter (is_tag name) (descendants n).

(** [tag.find(name)]: the first result of [find_all], or [None]. *)
Definition find (name : string) (n : node) : option node :=
  hd_error (find_all name n).

(** [tag.find(name, class_=c)]. *)
Definition find_class (name c : string) (n : node) : option node :=
  hd_error (filter (fun x => is_tag name x && has_class c x) (descendants n)).

(** [tag.text]: the strings below the tag, concatenated in document
    order. *)
Fixpoint text (n : node) : str :=
  match n with
  | NavigableString s => s
  | Comment _ => []
  | Tag _ _ cs =>
      (fix over (l : list node) : str :=
         match l with
         | [] => []
         | c :: l' => text c ++ over l'
         end) cs
  end.

(** The tree relations the statements below are phrased with. *)
Inductive child_of : node -> node -> Prop :=
| child_intro name cls cs c : In c cs -> child_of (Tag name cls cs) c.

Inductive inside (n : node) : node -> Prop :=
| inside_child c : child_of n c -> inside n c
| inside_deeper c x : child_of n c -> inside c x -> inside n x.

End Soup.

(* ================================================================== *)
(** ** The scraper *)

Module Scraper.

Import Py Soup.

(** *** [process_page] (the same text in [main.py] and in [async.py]) *)

(** The body of the [for row in ...] loop: [table_data] grows by one entry
    for a row that has cells, and is left alone otherwise. *)
Definition row_step (headers : list str) (table_data : list dict) (row : node)
  : list dict :=
  let row_data := map text (find_all "td" row) in
  match row_data with
  | [] => table_data
  | _ :: _ => table_data ++ [dict_of (zip headers row_data)]
  end.

(** [table.find('tr').find_all('th')]: [find] gives [None] on a table
    without rows, and the method call on it raises. *)
Definition process_page (soup : node) : raising (list dict) :=
  match find_class "div" "info" soup with
  | Some div_info =>
      match find "table" div_info with
      | Some table =>
          match find "tr" table with
          | None => raise AttributeError
          | Some first_row =>
              let headers := map text (find_all "th" first_row) in
              ret (fold_left (row_step headers) (tl (find_all "tr" table)) [])
          end
      | None => ret []
      end
  | None => ret []
  end.

(** *** The loop condition

    [div_info and div_info.find('table') and
     div_info.find('table').find_all('td')], as a truth value: a tag is
    always true, [None] is false, a list is true when it is not empty. *)
Definition has_data (soup : node) : bool :=
  match find_class "div" "info" soup with
  | None => false
  | Some div_info =>
      match find "table" div_info with
      | None => false
      | Some table =>
          match find_all "td" table with
          | [] => false
          | _ :: _ => true
          end
      end
  end.

(** The two outcomes of the condition, under the names the design
    documents use. *)
Inductive verdict := Continue | Stop.

Definition classify (soup : node) : verdict :=
  if has_data soup then Continue else Stop.

(** *** The HTTP world *)

(** What both clients expose of a response: the status, the charset the
    headers announce ([None] when they announce none), and the body. *)
Record Response := {
  status_code : nat;
  encoding : option codec;
  content : list byte
}.

Inductive outcome :=
| Raises (f : fetch_failure)
| Returns (r : Response).

(** The server: what the [n]-th GET (counted from 0) of a URL results in. *)
Definition world := string -> nat -> outcome.

(** The f-string of both files; only [RANGE={page}1%2F10] moves. *)
Definition current_url (page : nat) : string :=
  "https://cv.nabp.net/cvweb2/cgi-bin/utilities.dll/CustomList?ORGNAME_field=&STATECD_field=&ORGNAME=&STATECD=&SQLNAME=DIR_VAWD&RANGE="
  ++ NilEmpty.string_of_uint (Nat.to_uint page)
  ++ "1%2F10&sort=ORGNAME&showall=Y&wbp=VAWDList.htm&whp=VAWDheader.htm&wmt=main_template_vawd.htm&SHOWSQL=N".

(** What is printed. *)
Inductive message :=
| Processing (n : nat)          (* Processing page {n} *)
| FailedToRetrieve (n : nat)    (* Failed to retrieve page {n} *)
| ScrapingComplete              (* Scraping complete. Data saved. *)
| NumberOfADD (n : nat).        (* Number of ... (ADD): {n} *)

(** What a run does, in program order.  [Evaluated] marks the evaluation
    of the loop condition on a page; [TaskRequest] is the GET issued by a
    task created with [asyncio.create_task], [Gathered] the return of
    [asyncio.gather]. *)
Inductive event :=
| Print (m : message)
| Request (page : nat)
| Evaluated (page : nat) (continue : bool)
| CreateTask (page : nat)
| TaskRequest (page : nat)
| Gathered.

(** How a call ends: it returns, an exception leaves it, or (the fuel of
    the loop is used up) it is still running. *)
Inductive completion (A : Type) :=
| Returned (a : A)
| Uncaught (e : exn)
| Running.
Arguments Returned {A} a.
Arguments Uncaught {A} e.
Arguments Running {A}.

(** The exit status of the interpreter: both files call
    [get_add_distributors] at module level, so the status is 0 when the
    call returns and 1 when an exception leaves it. *)
Definition exit_code {A} (c : completion A) : option nat :=
  match c with
  | Returned _ => Some 0
  | Uncaught _ => Some 1
  | Running => None
  end.

(** [requests]' [Response.text]: the body decoded with the announced
    charset, or with a guessed one when none is announced; undecodable
    input is replaced, never rejected. *)
Definition requests_text (apparent_encoding : list byte -> codec)
  (r : Response) : str :=
  match content r with
  | [] => []
  | _ :: _ =>
      let enc := match encoding r with
                 | Some e => e
                 | None => apparent_encoding (content r)
                 end in
      decode enc (content r)
  end.

(** [aiohttp]'s [response.text(encoding=e)]: the announced charset is not
    consulted.  The only [e] it is called with is ISO-8859-1, which
    rejects no body. *)
Definition aiohttp_text (e : codec) (r : Response) : str :=
  decode e (content r).

End Scraper.

(* ------------------------------------------------------------------ *)
(** *** [main.py] *)

Module Main.

Import Py Soup Scraper.

Section Run.

(** [BeautifulSoup(text, 'html.parser')] and the charset detector behind
    [Response.text] are library code; the server is the environment. *)
Variable parse : str -> node.
Variable apparent_encoding : list byte -> codec.
Variable server : world.

(** [requests.get(url)]; every URL is requested once. *)
Definition requests_get (url : string) : outcome := server url 0.

(** The [while True] loop, [fuel] iterations of it at most. *)
Fixpoint scrape (fuel page : nat) (all_data : list dict)
  : completion (list dict) * list event :=
  match fuel with
  | 0 => (Running, [])
  | S fuel' =>
      let current_url := current_url page in
      let head := [Print (Processing (page + 1)); Request page] in
      match requests_get current_url with
      | Raises f => (Uncaught (ClientError f), head)
      | Returns response =>
          if Nat.eqb (status_code response) 200 then
            let soup := parse (requests_text apparent_encoding response) in
            if has_data soup then
              match process_page soup with
              | inl e => (Uncaught e, head ++ [Evaluated page true])
              | inr page_data =>
                  let (c, log) := scrape fuel' (page + 1) (all_data ++ page_data) in
                  (c, head ++ Evaluated page true :: log)
              end
            else (Returned all_data, head ++ [Evaluated page false])
          else
            (Returned all_data, head ++ [Print (FailedToRetrieve (page + 1))])
      end
  end.

(** The function: the loop, then the hand-over of [all_data] (serialised
    by [json.dumps], written to the JSON file, read back by pandas and
    written to the CSV file) and the two closing prints.  The hand-over is
    taken to succeed, as it does on every ordinary run; the JSON text that
    is returned stands for [all_data], which is what is kept here. *)
Definition get_add_distributors (fuel : nat)
  : completion (list dict) * list event :=
  let (c, log) := scrape fuel 0 [] in
  match c with
  | Returned all_data =>
      (Returned all_data,
       log ++ [Print ScrapingComplete; Print (NumberOfADD (List.length all_data))])
  | Uncaught e => (Uncaught e, log)
  | Running => (Running, log)
  end.

End Run.

End Main.

(* ------------------------------------------------------------------ *)
(** *** [async.py] *)

Module Async.

Import Py Soup Scraper.

Section Run.

Variable parse : str -> node.
Variable server : world.

(** [fetch_page(session, url)]; [n] tells how often the URL was requested
    before.  The status of the response is not looked at. *)
Definition fetch_page (url : string) (n : nat) : raising str :=
  match server url n with
  | Raises f => raise (ClientError f)
  | Returns response =>
      let encoding := ISO_8859_1 in
      ret (aiohttp_text encoding response)
  end.

(** The [while True] loop of the main coroutine.  [tasks] holds, for each
    task created so far, the URL it fetches; the awaited fetch of a URL is
    its first request. *)
Fixpoint discover (fuel page : nat) (tasks : list string)
  : completion (list string) * list event :=
  match fuel with
  | 0 => (Running, [])
  | S fuel' =>
      let current_url := current_url page in
      let head := [Print (Processing (page + 1)); Request page] in
      match fetch_page current_url 0 with
      | inl e => (Uncaught e, head)
      | inr page_content =>
          let soup := parse page_content in
          if negb (has_data soup) then
            (Returned tasks, head ++ [Evaluated page false])
          else
            let (c, log) := discover fuel' (page + 1) (tasks ++ [current_url]) in
            (c, head ++ Evaluated page true :: CreateTask page :: log)
      end
  end.

(** [await asyncio.gather] on all the tasks: the results in the order of
    [tasks] when every task returns.  A task's fetch is the second request of its
    URL.  When tasks raise, the exception of the first of them in task
    order is the one kept here. *)
Fixpoint gather (tasks : list string) : raising (list str) :=
  match tasks with
  | [] => ret []
  | url :: tasks' =>
      response <- fetch_page url 1 ;;
      responses <- gather tasks' ;;
      ret (response :: responses)
  end.

(** The [for response in responses] loop. *)
Fixpoint drain (responses : list str) (all_data : list dict)
  : raising (list dict) :=
  match responses with
  | [] => ret all_data
  | response :: responses' =>
      let soup := parse response in
      if has_data soup then
        page_data <- process_page soup ;;
        drain responses' (all_data ++ page_data)
      else ret all_data
  end.

(** The main coroutine, as its result and the events it goes through
    itself; the requests of the tasks are placed by [schedule] below. *)
Definition get_add_distributors (fuel : nat)
  : completion (list dict) * list event :=
  let (c, log) := discover fuel 0 [] in
  match c with
  | Returned tasks =>
      match gather tasks with
      | inl e => (Uncaught e, log)
      | inr responses =>
          match drain responses [] with
          | inl e => (Uncaught e, log ++ [Gathered])
          | inr all_data =>
              (Returned all_data,
               log ++ [Gathered; Print ScrapingComplete;
                       Print (NumberOfADD (List.length all_data))])
          end
      end
  | Uncaught e => (Uncaught e, log)
  | Running => (Running, log)
  end.

End Run.

(** The task an event of the main coroutine creates, if any. *)
Definition created (e : event) : list nat :=
  match e with
  | CreateTask p => [p]
  | _ => []
  end.

(** The events the main coroutine reaches only when every task is done. *)
Definition waits (e : event) : bool :=
  match e with
  | Gathered => true
  | _ => false
  end.

(** A created task starts at some later suspension of the main coroutine:
    [schedule pending main observed] holds when [observed] is [main] with
    the request of each created task put somewhere after its creation;
    [pending] are the tasks created and not yet started.  [gather] returns
    only when no task is left; a run that ends before may leave tasks
    that never started. *)
Inductive schedule : list nat -> list event -> list event -> Prop :=
| sched_end pending : schedule pending [] []
| sched_main pending e main observed :
    (waits e = true -> pending = []) ->
    schedule (pending ++ created e) main observed ->
    schedule pending (e :: main) (e :: observed)
| sched_task before p after main observed :
    schedule (before ++ after) main observed ->
    schedule (before ++ p :: after) main (TaskRequest p :: observed).

End Async.

(* ================================================================== *)
(** ** Sample pages and servers *)

Module Fixtures.

Import Py Soup Scraper.

Definition bytes (s : string) : list byte := list_byte_of_string s.

(** A listing page with the two columns of the directory and one row. *)
Definition listing_bytes (org state : list byte) : list byte :=
  bytes "<div class='info'><table><tr><th>ORGNAME</th><th>STATECD</th></tr><tr><td>"
  ++ org ++ bytes "</td><td>" ++ state ++ bytes "</td></tr></table></div>".

Definition listing_text (org state : str) : str :=
  lit "<div class='info'><table><tr><th>ORGNAME</th><th>STATECD</th></tr><tr><td>"
  ++ org ++ lit "</td><td>" ++ state ++ lit "</td></tr></table></div>".

Definition header_row : node :=
  Tag "tr" [] [Tag "th" [] [NavigableString (lit "ORGNAME")];
               Tag "th" [] [NavigableString (lit "STATECD")]].

Definition listing_row (org state : str) : node :=
  Tag "tr" [] [Tag "td" [] [NavigableString org];
               Tag "td" [] [NavigableString state]].

Definition listing_table (org state : str) : node :=
  Tag "table" [] [header_row; listing_row org state].

Definition listing_div (org state : str) : node :=
  Tag "div" ["info"] [listing_table org state].

Definition listing_tree (org state : str) : node :=
  BeautifulSoup [listing_div org state].

(** The container with nothing in it: the page after the last one. *)
Definition empty_bytes : list byte := bytes "<div class='info'></div>".
Definition empty_text : str := lit "<div class='info'></div>".
Definition empty_tree : node := BeautifulSoup [Tag "div" ["info"] []].

(** A table whose cell sits directly in it.  [html.parser] adds no row
    around the cell. *)
Definition rowless_bytes : list byte :=
  bytes "<div class='info'><table><td>Acme Pharma</td></table></div>".
Definition rowless_text : str :=
  lit "<div class='info'><table><td>Acme Pharma</td></table></div>".
Definition rowless_tree : node :=
  BeautifulSoup
    [Tag "div" ["info"]
       [Tag "table" [] [Tag "td" [] [NavigableString (lit "Acme Pharma")]]]].

(** The name [Café] in ISO-8859-1: its last byte is 0xE9. *)
Definition cafe : list byte := bytes "Caf" ++ [xe9].

(** The documents the sample servers send, each with the tree
    [html.parser] builds from it.  Any other text is read as text without
    markup. *)
Definition documents : list (str * node) :=
  [ (listing_text (lit "Acme Pharma") (lit "CA"),
     listing_tree (lit "Acme Pharma") (lit "CA"));
    (listing_text (lit "Beta Distribution") (lit "TX"),
     listing_tree (lit "Beta Distribution") (lit "TX"));
    (listing_text (lit "Caf" ++ [233%N]) (lit "CA"),
     listing_tree (lit "Caf" ++ [233%N]) (lit "CA"));
    (listing_text (lit "Caf" ++ [REPLACEMENT]) (lit "CA"),
     listing_tree (lit "Caf" ++ [REPLACEMENT]) (lit "CA"));
    (empty_text, empty_tree);
    (rowless_text, rowless_tree) ].

Definition parse (t : str) : node :=
  match List.find (fun d => str_eqb (fst d) t) documents with
  | Some d => snd d
  | None =>
      match t with
      | [] => BeautifulSoup []
      | _ :: _ => BeautifulSoup [NavigableString t]
      end
  end.

(** No charset is ever guessed in the samples: each response announces
    one. *)
Definition guess (_ : list byte) : codec := UTF_8.

Definition response (status : nat) (charset : codec) (body : list byte)
  : outcome :=
  Returns {| status_code := status; encoding := Some charset; content := body |}.

(** A page as the directory serves it: status 200 and a [text/html]
    content type without charset, which [requests] takes as ISO-8859-1. *)
Definition ok (body : list byte) : outcome := response 200 ISO_8859_1 body.

Fixpoint lookup (url : string) (page : nat) (pages : list outcome) : outcome :=
  match pages with
  | [] => Raises NetworkFailure
  | o :: pages' =>
      if String.eqb url (current_url page) then o
      else lookup url (S page) pages'
  end.

(** A server that answers page [i] with the [i]-th entry, every time. *)
Definition serving (pages : list outcome) : world :=
  fun url _ => lookup url 0 pages.

(** A server that answers the first request of a page from [first] and
    later ones from [later]. *)
Definition serving_twice (first later : list outcome) : world :=
  fun url n =>
    match n with
    | 0 => lookup url 0 first
    | S _ => lookup url 0 later
    end.

Definition acme_page : list byte := listing_bytes (bytes "Acme Pharma") (bytes "CA").
Definition beta_page : list byte := listing_bytes (bytes "Beta Distribution") (bytes "TX").
Definition cafe_page : list byte := listing_bytes cafe (bytes "CA").

Definition acme_div : node := listing_div (lit "Acme Pharma") (lit "CA").
Definition acme_table : node := listing_table (lit "Acme Pharma") (lit "CA").
Definition acme_row : node := listing_row (lit "Acme Pharma") (lit "CA").

Definition acme_record : dict :=
  [(lit "ORGNAME", lit "Acme Pharma"); (lit "STATECD", lit "CA")].
Definition beta_record : dict :=
  [(lit "ORGNAME", lit "Beta Distribution"); (lit "STATECD", lit "TX")].

Definition cafe_record : dict :=
  [(lit "ORGNAME", lit "Caf" ++ [233%N]); (lit "STATECD", lit "CA")].
Definition mangled_record : dict :=
  [(lit "ORGNAME", lit "Caf" ++ [REPLACEMENT]); (lit "STATECD", lit "CA")].

(** The host cannot be reached. *)
Definition unreachable : world := serving [Raises NetworkFailure].

(** The first page comes with status 500 and an error text. *)
Definition failing : world :=
  serving [response 500 ISO_8859_1 (bytes "Internal Server Error")].

(** The first page comes with status 500 and the listing all the same. *)
Definition failing_with_listing : world :=
  serving [response 500 ISO_8859_1 acme_page; ok empty_bytes].

(** The listing is sent in ISO-8859-1 under a header that announces
    UTF-8. *)
Definition misannounced : world :=
  serving [response 200 UTF_8 cafe_page; ok empty_bytes].

(** A page whose table has a cell and no row. *)
Definition rowless : world := serving [ok rowless_bytes; ok empty_bytes].

(** The first page changes between its two requests. *)
Definition changing : world :=
  serving_twice [ok acme_page; ok empty_bytes] [ok beta_page; ok empty_bytes].

Definition two_soups (i : nat) : node :=
  match i with
  | 0 => listing_tree (lit "Acme Pharma") (lit "CA")
  | _ => listing_tree (lit "Beta Distribution") (lit "TX")
  end.

Definition two_texts (i : nat) : str :=
  match i with
  | 0 => listing_text (lit "Acme Pharma") (lit "CA")
  | _ => listing_text (lit "Beta Distribution") (lit "TX")
  end.

Definition two_data (i : nat) : list dict :=
  match i with
  | 0 => [acme_record]
  | _ => [beta_record]
  end.

Definition acme_response : Response :=
  {| status_code := 200; encoding := Some ISO_8859_1; content := acme_page |}.
Definition beta_response : Response :=
  {| status_code := 200; encoding := Some ISO_8859_1; content := beta_page |}.
Definition empty_response : Response :=
  {| status_code := 200; encoding := Some ISO_8859_1; content := empty_bytes |}.
Definition error_response : Response :=
  {| status_code := 500; encoding := Some ISO_8859_1;
     content := bytes "Internal Server Error" |}.

(** The second page times out. *)
Definition dropping : world := serving [ok acme_page; Raises TimedOut].

(** The second page comes with status 500. *)
Definition failing_later : world :=
  serving [ok acme_page; Returns error_response].

(** The example of the design notes: two listing pages, then the empty
    container. *)
Definition two_pages : world :=
  serving [ok acme_page; ok beta_page; ok empty_bytes].

(** The run of [async.py] on [two_pages] with each task starting while the
    loop awaits the next page. *)
Definition two_pages_observed : list event :=
  [Print (Processing 1); Request 0; Evaluated 0 true; CreateTask 0;
   Print (Processing 2); Request 1; TaskRequest 0; Evaluated 1 true;
   CreateTask 1;
   Print (Processing 3); Request 2; TaskRequest 1; Evaluated 2 false;
   Gathered; Print ScrapingComplete; Print (NumberOfADD 2)].

(** The run of [async.py] on [changing], the task starting while the loop
    awaits the second page. *)
Definition changing_observed : list event :=
  [Print (Processing 1); Request 0; Evaluated 0 true; CreateTask 0;
   Print (Processing 2); Request 1; TaskRequest 0; Evaluated 1 false;
   Gathered; Print ScrapingComplete; Print (NumberOfADD 1)].

(** A directory that never runs out of pages. *)
Definition endless : world := fun _ _ => ok acme_page.

(** A table without header cells: both of its rows hold data. *)
Definition headerless_table : node :=
  Tag "table" [] [listing_row (lit "Acme Pharma") (lit "CA");
                  listing_row (lit "Beta Distribution") (lit "TX")].
Definition headerless_div : node := Tag "div" ["info"] [headerless_table].
Definition headerless_tree : node := BeautifulSoup [headerless_div].

(** A row whose cell holds a table of its own. *)
Definition inner_cell : node := Tag "td" [] [NavigableString (lit "TX")].
Definition inner_row : node := Tag "tr" [] [inner_cell].
Definition outer_row : node :=
  Tag "tr" [] [Tag "td" [] [Tag "table" [] [inner_row]]].
Definition nested_table : node := Tag "table" [] [header_row; outer_row].

(** A listing page, then a page whose table has a cell and no row, then
    the empty container. *)
Definition rowless_later : world :=
  serving [ok acme_page; ok rowless_bytes; ok empty_bytes].

Definition rowless_response : Response :=
  {| status_code := 200; encoding := Some ISO_8859_1;
     content := rowless_bytes |}.

(** A table with nothing in it. *)
Definition empty_table_tree : node :=
  BeautifulSoup [Tag "div" ["info"] [Tag "table" [] []]].

(** The page around [nested_table]. *)
Definition nested_div : node := Tag "div" ["info"] [nested_table].
Definition nested_tree : node := BeautifulSoup [nested_div].

(** The listing with status 200 and no announced charset. *)
Definition acme_unannounced : Response :=
  {| status_code := 200; encoding := None; content := acme_page |}.

(** A table that has its header row and nothing else. *)
Definition header_only_tree : node :=
  BeautifulSoup [Tag "div" ["info"] [Tag "table" [] [header_row]]].

(** The listing and then the empty container, all with status 200. *)
Definition listing_ok : world := serving [ok acme_page; ok empty_bytes].

(** The first page comes with status 500 and the listing as its body,
    nothing else is served. *)
Definition failing_otherwise : world :=
  serving [response 500 ISO_8859_1 acme_page].

(** The first page has become empty by the time its task fetches it. *)
Definition emptied : world :=
  serving_twice [ok acme_page; ok beta_page; ok empty_bytes]
                [ok empty_bytes; ok beta_page; ok empty_bytes].

Definition emptied_first (i : nat) : str :=
  match i with
  | 0 => listing_text (lit "Acme Pharma") (lit "CA")
  | _ => listing_text (lit "Beta Distribution") (lit "TX")
  end.

Definition emptied_second (i : nat) : str :=
  match i with
  | 0 => empty_text
  | _ => listing_text (lit "Beta Distribution") (lit "TX")
  end.

(** The responses of [two_pages]. *)
Definition two_responses (i : nat) : Response :=
  match i with
  | 0 => acme_response
  | 1 => beta_response
  | _ => empty_response
  end.

(** The listing with status 200 under a header that announces UTF-8. *)
Definition acme_as_utf8 : Response :=
  {| status_code := 200; encoding := Some UTF_8; content := acme_page |}.

End Fixtures.

(* ================================================================== *)
(** ** The vocabulary of the statements *)

Module Spec.

Import Py Soup Scraper.

(** How a call ends when its body evaluates to [r]. *)
Definition completion_of {A} (r : raising A) : completion A :=
  match r with
  | inl e => Uncaught e
  | inr a => Returned a
  end.

(** The cells of a row, the rows that count, and the record of a row. *)
Definition row_cells (row : node) : list str := map text (find_all "td" row).

Definition has_cells (row : node) : bool :=
  match row_cells row with
  | [] => false
  | _ :: _ => true
  end.

Definition record_of (headers : list str) (row : node) : dict :=
  dict_of (zip headers (row_cells row)).

(** The value of the last pair with key [k]. *)
Fixpoint assoc_last (pairs : list (str * str)) (k : str) : option str :=
  match pairs with
  | [] => None
  | (k', v) :: pairs' =>
      match assoc_last pairs' k with
      | Some v' => Some v'
      | None => if str_eqb k' k then Some v else None
      end
  end.

(** The records of a sequence of pages: page after page, each page's
    records in row order, as long as no extraction raises. *)
Fixpoint collect (soups : list node) (all_data : list dict)
  : raising (list dict) :=
  match soups with
  | [] => ret all_data
  | soup :: soups' =>
      page_data <- process_page soup ;;
      collect soups' (all_data ++ page_data)
  end.

(** The page a GET is for, whoever issues it. *)
Definition issues (e : event) : option nat :=
  match e with
  | Request p => Some p
  | TaskRequest p => Some p
  | _ => None
  end.

(** The pages the loop itself requests, in order. *)
Definition requests (log : list event) : list nat :=
  flat_map (fun e => match e with Request p => [p] | _ => [] end) log.

(** Counting events: [pick] selects the kind and gives the page, [f]
    selects the pages. *)
Definition count_where (pick : event -> option nat) (f : nat -> bool)
  (log : list event) : nat :=
  List.length (filter (fun e => match pick e with
                                | Some p => f p
                                | None => false
                                end) log).

(** What one event adds to the count. *)
Definition weight (pick : event -> option nat) (f : nat -> bool) (e : event)
  : nat :=
  match pick e with
  | Some q => if f q then 1 else 0
  | None => 0
  end.

Definition awaited (e : event) : option nat :=
  match e with Request p => Some p | _ => None end.

Definition by_task (e : event) : option nat :=
  match e with TaskRequest p => Some p | _ => None end.

Definition task_made (e : event) : option nat :=
  match e with CreateTask p => Some p | _ => None end.

(** Discovery is sequential: a GET for page [k+1] comes after the
    condition was found to hold on page [k]. *)
Definition discovery_sequential (log : list event) : Prop :=
  forall before e after k,
    log = before ++ e :: after ->
    issues e = Some (S k) ->
    In (Evaluated k true) before.

(** A task fetches a page only after the condition held on that page. *)
Definition tasks_follow (log : list event) : Prop :=
  forall before p after,
    log = before ++ TaskRequest p :: after ->
    In (Evaluated p true) before.

(** The same, as a property checked along the log: [n] pages are known to
    continue so far. *)
Fixpoint paced (n : nat) (log : list event) : Prop :=
  match log with
  | [] => True
  | e :: log' =>
      match e with
      | Request q => q <= n /\ paced n log'
      | Evaluated q true => q = n /\ paced (S n) log'
      | CreateTask q => q < n /\ paced n log'
      | TaskRequest q => q < n /\ paced n log'
      | _ => paced n log'
      end
  end.

(** Events that are neither requests nor evaluations: what follows the
    loops. *)
Definition closing (tail : list event) : Prop :=
  forall e, In e tail ->
    e = Gathered \/ exists m, e = Print m.

(** What each variant makes of a response, and what it gets for a page. *)
Section Pages.

Variable parse : str -> node.
Variable apparent_encoding : list byte -> codec.
Variable server : world.

Definition main_soup (r : Response) : node :=
  parse (requests_text apparent_encoding r).

Definition async_soup (r : Response) : node :=
  parse (aiohttp_text ISO_8859_1 r).

(** [main.py] gets page [i] with status 200 and reads it as [soup]. *)
Definition main_page (i : nat) (soup : node) : Prop :=
  exists r, server (current_url i) 0 = Returns r /\
            status_code r = 200 /\ main_soup r = soup.

(** The [n]-th request of page [i] in [async.py] gives the text [t]. *)
Definition async_text (i n : nat) (t : str) : Prop :=
  exists r, server (current_url i) n = Returns r /\
            aiohttp_text ISO_8859_1 r = t.

(** The events of one iteration that goes on to the next page. *)
Definition main_round (i : nat) : list event :=
  [Print (Processing (i + 1)); Request i; Evaluated i true].

Definition async_round (i : nat) : list event :=
  [Print (Processing (i + 1)); Request i; Evaluated i true; CreateTask i].

End Pages.

(** A tag of a given name, and the content container: a [div] that has
    [info] among its classes. *)
Definition is_named (name : string) (n : node) : Prop :=
  exists cls cs, n = Tag name cls cs.

Definition is_info_div (n : node) : Prop :=
  exists cls cs, n = Tag "div" cls cs /\ In "info" cls.

(** The first node in document order, among a sequence of siblings and
    what lies below them, that satisfies [P]: a sibling itself; or a node
    below it, when the sibling does not satisfy [P]; or a node further
    on, when neither the sibling nor anything below it does. *)
Inductive first_among (P : node -> Prop) : list node -> node -> Prop :=
| first_here c cs :
    P c -> first_among P (c :: cs) c
| first_below name cls sub cs x :
    ~ P (Tag name cls sub) ->
    first_among P sub x ->
    first_among P (Tag name cls sub :: cs) x
| first_later c cs x :
    ~ P c -> (forall y, inside c y -> ~ P y) ->
    first_among P cs x ->
    first_among P (c :: cs) x.

(** The first node inside [n], in document order, that satisfies [P]. *)
Definition first_inside (P : node -> Prop) (n x : node) : Prop :=
  match n with
  | Tag _ _ cs => first_among P cs x
  | _ => False
  end.

(** The charset [Response.text] decodes a body with. *)
Definition charset_used (apparent_encoding : list byte -> codec)
  (r : Response) : codec :=
  match encoding r with
  | Some e => e
  | None => apparent_encoding (content r)
  end.

(** The two parts of the URL around the number that [RANGE=] begins
    with. *)
Definition url_head : string :=
  "https://cv.nabp.net/cvweb2/cgi-bin/utilities.dll/CustomList?ORGNAME_field=&STATECD_field=&ORGNAME=&STATECD=&SQLNAME=DIR_VAWD&RANGE=".

Definition url_tail : string :=
  "%2F10&sort=ORGNAME&showall=Y&wbp=VAWDList.htm&whp=VAWDheader.htm&wmt=main_template_vawd.htm&SHOWSQL=N".

(** A byte of the ASCII range. *)
Definition is_ascii (b : byte) : bool := (Byte.to_N b <? 128)%N.

(** Two answers that [async.py] cannot tell apart: the same exception, or
    responses with the same body. *)
Definition same_body (o1 o2 : outcome) : Prop :=
  match o1, o2 with
  | Raises f1, Raises f2 => f1 = f2
  | Returns r1, Returns r2 => content r1 = content r2
  | _, _ => False
  end.

(** Two answers that [main.py] cannot tell apart: the same exception, or
    responses of the same status that are the same response when the
    status is 200. *)
Definition same_for_main (o1 o2 : outcome) : Prop :=
  match o1, o2 with
  | Raises f1, Raises f2 => f1 = f2
  | Returns r1, Returns r2 =>
      status_code r1 = status_code r2 /\ (status_code r1 = 200 -> r1 = r2)
  | _, _ => False
  end.

End Spec.

(* ================================================================== *)
(** ** Properties *)

Import Py Soup Scraper Spec.

(** *** Python strings and [dict] *)

Lemma str_eqb_eq a b : str_eqb a b = true <-> a = b.
Proof.
  unfold str_eqb. destruct (list_eq_dec N.eq_dec a b); split; congruence.
Qed.

Lemma str_eqb_refl a : str_eqb a a = true.
Proof. now apply str_eqb_eq. Qed.

Lemma str_eqb_neq a b : a <> b -> str_eqb a b = false.
Proof.
  intros H. destruct (str_eqb a b) eqn:E; [|reflexivity].
  apply str_eqb_eq in E. contradiction.
Qed.

Lemma get_setitem d k v k' :
  get (setitem d k v) k' = if str_eqb k k' then Some v else get d k'.
Proof.
  induction d as [|[k0 v0] d IH]; simpl; [reflexivity|].
  destruct (str_eqb k0 k) eqn:E0; simpl.
  - apply str_eqb_eq in E0. subst k0. now destruct (str_eqb k k').
  - rewrite IH. destruct (str_eqb k0 k') eqn:E1, (str_eqb k k') eqn:E2;
      try reflexivity.
    apply str_eqb_eq in E1, E2. subst. rewrite str_eqb_refl in E0. discriminate.
Qed.

Lemma get_fold_setitem pairs d k :
  get (fold_left (fun d kv => setitem d (fst kv) (snd kv)) pairs d) k =
  match assoc_last pairs k with
  | Some v => Some v
  | None => get d k
  end.
Proof.
  revert d. induction pairs as [|[k' v] pairs IH]; intros d; simpl;
    [reflexivity|].
  rewrite IH. destruct (assoc_last pairs k); [reflexivity|].
  rewrite get_setitem. now destruct (str_eqb k' k).
Qed.

Lemma get_dict_of pairs k : get (dict_of pairs) k = assoc_last pairs k.
Proof.
  unfold dict_of. rewrite get_fold_setitem. now destruct (assoc_last pairs k).
Qed.

Lemma assoc_last_absent hs cs h :
  ~ In h (firstn (List.length cs) hs) -> assoc_last (combine hs cs) h = None.
Proof.
  revert cs. induction hs as [|h0 hs IH]; intros [|c0 cs] H; simpl in *;
    try reflexivity.
  rewrite IH by tauto.
  rewrite str_eqb_neq; [reflexivity|]. intros ->. tauto.
Qed.

Lemma assoc_last_beyond hs cs h :
  (forall j, j < List.length cs -> nth_error hs j <> Some h) ->
  assoc_last (combine hs cs) h = None.
Proof.
  revert cs. induction hs as [|h0 hs IH]; intros [|c0 cs] H; simpl in *;
    try reflexivity.
  rewrite IH.
  - rewrite str_eqb_neq; [reflexivity|]. intros ->.
    apply (H 0); [lia|reflexivity].
  - intros j Hj. apply (H (S j)). lia.
Qed.

Lemma assoc_last_position hs cs i h c :
  nth_error hs i = Some h ->
  nth_error cs i = Some c ->
  (forall j, i < j -> j < List.length cs -> nth_error hs j <> Some h) ->
  assoc_last (combine hs cs) h = Some c.
Proof.
  revert cs i. induction hs as [|h0 hs IH]; intros [|c0 cs] [|i] Hh Hc Hlast;
    simpl in *; try discriminate.
  - inversion Hh; inversion Hc; subst.
    rewrite assoc_last_beyond.
    + now rewrite str_eqb_refl.
    + intros j Hj. apply (Hlast (S j)); lia.
  - rewrite (IH cs i); auto.
    intros j Hij Hj. apply (Hlast (S j)); lia.
Qed.

Lemma setitem_fresh d k v :
  ~ In k (keys d) -> setitem d k v = d ++ [(k, v)].
Proof.
  induction d as [|[k0 v0] d IH]; simpl; intros H; [reflexivity|].
  rewrite str_eqb_neq by tauto. rewrite IH by tauto. reflexivity.
Qed.

Lemma fold_setitem_distinct pairs d :
  NoDup (map fst pairs) ->
  (forall k, In k (map fst pairs) -> ~ In k (keys d)) ->
  fold_left (fun d kv => setitem d (fst kv) (snd kv)) pairs d = d ++ pairs.
Proof.
  revert d. induction pairs as [|[k v] pairs IH]; intros d Hnd Hfresh; simpl.
  - now rewrite app_nil_r.
  - inversion Hnd as [|? ? Hk Hnd']; subst.
    rewrite setitem_fresh by (apply Hfresh; now left).
    rewrite IH; [now rewrite <- app_assoc|assumption|].
    intros k' Hk' Hin. unfold keys in Hin. rewrite map_app in Hin.
    apply in_app_or in Hin. destruct Hin as [Hin|[<-|[]]].
    + apply (Hfresh k'); [now right|assumption].
    + contradiction.
Qed.

Lemma NoDup_combine_keys (hs cs : list str) :
  NoDup hs -> NoDup (map fst (combine hs cs)).
Proof.
  revert cs. induction hs as [|h hs IH]; intros [|c cs] H; simpl;
    try constructor.
  - inversion H as [|? ? Hh Hnd]; subst. intros Hin. apply Hh.
    apply in_map_iff in Hin. destruct Hin as [[h' c'] [<- Hin]].
    now apply in_combine_l in Hin.
  - inversion H; subst. now apply IH.
Qed.

Lemma dict_of_distinct (hs cs : list str) :
  NoDup hs -> dict_of (zip hs cs) = combine hs cs.
Proof.
  intros H. unfold dict_of, zip.
  rewrite fold_setitem_distinct; [reflexivity|now apply NoDup_combine_keys|].
  intros k _ [].
Qed.

(** *** Decoding *)

Lemma latin1_round_trip (b : list byte) :
  encode_latin1 (decode_latin1 b) = Some b.
Proof.
  induction b as [|x b IH]; simpl; [reflexivity|].
  now rewrite Byte.of_to_N, IH.
Qed.

Lemma requests_text_latin1 guess r :
  encoding r = Some ISO_8859_1 -> requests_text guess r = decode_latin1 (content r).
Proof.
  intros H. unfold requests_text. rewrite H. now destruct (content r).
Qed.

Lemma fetch_page_decodes_latin1 server url n r :
  server url n = Returns r ->
  exists t, Async.fetch_page server url n = ret t /\
            encode_latin1 t = Some (content r).
Proof.
  intros H. unfold Async.fetch_page. rewrite H. eexists. split; [reflexivity|].
  apply latin1_round_trip.
Qed.

(** *** The tree *)

Lemma node_ind (P : node -> Prop) :
  (forall s, P (NavigableString s)) ->
  (forall s, P (Comment s)) ->
  (forall name cls cs, Forall P cs -> P (Tag name cls cs)) ->
  forall n, P n.
Proof.
  intros Hs Hc Ht. fix IH 1. intros [s|s|name cls cs].
  - apply Hs.
  - apply Hc.
  - apply Ht. induction cs as [|c cs IHcs]; constructor; auto.
Qed.

Lemma descendants_tag name cls cs :
  descendants (Tag name cls cs) = descendants_of_list cs.
Proof.
  unfold descendants_of_list. simpl.
  induction cs as [|c cs IH]; simpl; [reflexivity|].
  now rewrite IH.
Qed.

Lemma descendants_inside n x : In x (descendants n) <-> inside n x.
Proof.
  split.
  - revert x. induction n as [s|s|name cls cs IH] using node_ind; intros x Hx;
      try contradiction.
    rewrite descendants_tag in Hx. unfold descendants_of_list in Hx.
    apply in_flat_map in Hx. destruct Hx as [c [Hc [Hx|Hx]]].
    + subst x. apply inside_child. now constructor.
    + apply inside_deeper with c; [now constructor|].
      rewrite Forall_forall in IH. now apply IH.
  - intros H. induction H as [n c Hc|n c x Hc _ IH].
    + destruct Hc as [name cls cs c Hin]. rewrite descendants_tag.
      apply in_flat_map. exists c. split; [assumption|now left].
    + destruct Hc as [name cls cs c Hin]. rewrite descendants_tag.
      apply in_flat_map. exists c. split; [assumption|now right].
Qed.

Lemma filter_nil_none {A} (f : A -> bool) l :
  filter f l = [] <-> forall x, In x l -> f x = false.
Proof.
  induction l as [|a l IH]; simpl.
  - split; [intros _ x []|reflexivity].
  - destruct (f a) eqn:E; split.
    + discriminate.
    + intros H. specialize (H a (or_introl eq_refl)). congruence.
    + intros H x [<-|Hx]; [assumption|]. now apply IH.
    + intros H. apply IH. intros x Hx. apply H. now right.
Qed.

(** [find] gives the first match in document order. *)
Lemma first_match {A} (f : A -> bool) (l : list A) (x : A) :
  hd_error (filter f l) = Some x ->
  exists before after,
    l = before ++ x :: after /\ f x = true /\
    forall y, In y before -> f y = false.
Proof.
  induction l as [|a l IH]; simpl; [discriminate|].
  destruct (f a) eqn:E; simpl.
  - intros H. inversion H; subst. exists [], l. repeat split; [assumption|].
    intros y [].
  - intros H. destruct (IH H) as (before & after & -> & Hx & Hb).
    exists (a :: before), after. repeat split; [assumption|].
    intros y [<-|Hy]; auto.
Qed.

Lemma find_class_first name c n x :
  find_class name c n = Some x ->
  exists before after,
    descendants n = before ++ x :: after /\
    is_tag name x = true /\ has_class c x = true /\
    forall y, In y before -> is_tag name y && has_class c y = false.
Proof.
  intros H. apply first_match in H.
  destruct H as (before & after & Hd & Hx & Hb).
  apply andb_true_iff in Hx. exists before, after. tauto.
Qed.

Lemma find_first name n x :
  find name n = Some x ->
  exists before after,
    descendants n = before ++ x :: after /\
    is_tag name x = true /\
    forall y, In y before -> is_tag name y = false.
Proof. intros H. now apply first_match in H. Qed.

(** *** [process_page] *)

Lemma rows_loop headers rows table_data :
  fold_left (row_step headers) rows table_data =
  table_data ++ map (record_of headers) (filter has_cells rows).
Proof.
  revert table_data. induction rows as [|row rows IH]; intros table_data; simpl.
  - now rewrite app_nil_r.
  - rewrite IH.
    assert (Hs : row_step headers table_data row =
                 if has_cells row then table_data ++ [record_of headers row]
                 else table_data).
    { unfold row_step, has_cells, record_of, row_cells.
      now destruct (map text (find_all "td" row)). }
    rewrite Hs. destruct (has_cells row); simpl; [|reflexivity].
    now rewrite <- app_assoc.
Qed.

(** A table with cells and no row passes the loop condition and makes
    [process_page] raise. *)
Lemma continue_without_row_raises soup div_info table :
  find_class "div" "info" soup = Some div_info ->
  find "table" div_info = Some table ->
  find_all "td" table <> [] ->
  find "tr" table = None ->
  has_data soup = true /\ process_page soup = raise AttributeError.
Proof.
  intros Hd Ht Htd Htr. unfold has_data, process_page.
  rewrite Hd, Ht, Htr. split; [|reflexivity].
  destruct (find_all "td" table); [contradiction|reflexivity].
Qed.

(** *** The URL of a page *)

Lemma append_cancel_l (p a b : string) : (p ++ a = p ++ b)%string -> a = b.
Proof.
  induction p as [|c p IH]; simpl; [auto|]. intros H. inversion H. auto.
Qed.

Lemma append_length (a b : string) :
  String.length (a ++ b) = String.length a + String.length b.
Proof. induction a as [|c a IH]; simpl; [reflexivity|]. now rewrite IH. Qed.

Lemma append_cancel_r (a b s : string) : (a ++ s = b ++ s)%string -> a = b.
Proof.
  revert b. induction a as [|c a IH]; intros [|d b] H; simpl in H.
  - reflexivity.
  - apply (f_equal String.length) in H. simpl in H.
    rewrite append_length in H. lia.
  - apply (f_equal String.length) in H. simpl in H.
    rewrite append_length in H. lia.
  - inversion H. f_equal. auto.
Qed.

(** Distinct pages have distinct URLs: the first request of a URL is the
    loop's fetch of its page, the second the fetch by the page's task. *)
Lemma current_url_injective p q : current_url p = current_url q -> p = q.
Proof.
  unfold current_url. intros H.
  apply append_cancel_l, append_cancel_r in H.
  apply (f_equal NilEmpty.uint_of_string) in H.
  rewrite !NilEmpty.usu in H. inversion H as [H'].
  apply (f_equal Nat.of_uint) in H'. now rewrite !DecimalNat.Unsigned.of_to in H'.
Qed.

(** *** The loop of [main.py] *)

Section MainLoop.

Variable parse : str -> node.
Variable guess : list byte -> codec.
Variable server : world.

#[local] Abbreviation scrape := (Main.scrape parse guess server).
#[local] Abbreviation page_of := (main_page parse guess server).

Lemma classify_has_data soup :
  (classify soup = Continue <-> has_data soup = true) /\
  (classify soup = Stop <-> has_data soup = false).
Proof. unfold classify. destruct (has_data soup); repeat split; congruence. Qed.

Lemma collect_all soups data p k acc :
  (forall i, p <= i < p + k -> process_page (soups i) = ret (data i)) ->
  collect (map soups (seq p k)) acc = ret (acc ++ flat_map data (seq p k)).
Proof.
  revert p acc. induction k as [|k IH]; intros p acc H; simpl.
  - now rewrite app_nil_r.
  - rewrite H by lia. simpl. rewrite IH; [now rewrite <- app_assoc|].
    intros i Hi. apply H. lia.
Qed.

(** The loop on a page that stops it. *)
Lemma scrape_stop fuel p acc s :
  page_of p s -> has_data s = false ->
  scrape (S fuel) p acc =
  (Returned acc, [Print (Processing (p + 1)); Request p; Evaluated p false]).
Proof.
  intros (r & Hr & Hst & Hs) Hd. simpl.
  unfold Main.requests_get. rewrite Hr, Hst. simpl.
  unfold main_soup in Hs. rewrite Hs, Hd. reflexivity.
Qed.

(** The loop on a page that continues it. *)
Lemma scrape_continue fuel p acc s :
  page_of p s -> has_data s = true ->
  scrape (S fuel) p acc =
  match process_page s with
  | inl e => (Uncaught e, main_round p)
  | inr page_data =>
      let (c, log) := scrape fuel (S p) (acc ++ page_data) in
      (c, main_round p ++ log)
  end.
Proof.
  intros (r & Hr & Hst & Hs) Hd. simpl.
  unfold Main.requests_get. rewrite Hr, Hst. simpl.
  unfold main_soup in Hs. rewrite Hs, Hd.
  destruct (process_page s); [reflexivity|].
  rewrite Nat.add_1_r. reflexivity.
Qed.

(** Pages [p .. p+k-1] continue, page [p+k] stops: the result is what
    extraction gives on the [k] pages, and nothing beyond [p+k] is
    requested. *)
Lemma scrape_until_stop k : forall p acc extra soups,
  (forall i, p <= i < p + k -> page_of i (soups i) /\ has_data (soups i) = true) ->
  (exists s, page_of (p + k) s /\ has_data s = false) ->
  fst (scrape (S k + extra) p acc) =
    completion_of (collect (map soups (seq p k)) acc)
  /\ (forall q, In (Request q) (snd (scrape (S k + extra) p acc)) ->
                 p <= q <= p + k)
  /\ (forall data,
        (forall i, p <= i < p + k -> process_page (soups i) = ret (data i)) ->
        requests (snd (scrape (S k + extra) p acc)) = seq p (S k)).
Proof.
  induction k as [|k IH]; intros p acc extra soups Hc (s & Hs & Hd).
  - rewrite Nat.add_0_r in Hs. simpl Nat.add.
    rewrite (scrape_stop _ _ _ _ Hs Hd). simpl. repeat split.
    + destruct H as [H|[H|[H|[]]]]; inversion H; lia.
    + destruct H as [H|[H|[H|[]]]]; inversion H; lia.
  - destruct (Hc p ltac:(lia)) as [Hp Hdp].
    change (S (S k) + extra) with (S (S k + extra)).
    rewrite (scrape_continue _ _ _ _ Hp Hdp).
    cbn [seq map collect bind]. unfold bind.
    destruct (process_page (soups p)) as [e|page_data] eqn:E.
    + simpl. repeat split.
      * destruct H as [H|[H|[H|[]]]]; inversion H; lia.
      * destruct H as [H|[H|[H|[]]]]; inversion H; lia.
      * intros data Hdata. rewrite Hdata in E by lia. discriminate.
    + specialize (IH (S p) (acc ++ page_data) extra soups).
      destruct IH as (IH1 & IH2 & IH3).
      { intros i Hi. apply Hc. lia. }
      { exists s. split; [|assumption]. now replace (S p + k) with (p + S k) by lia. }
      destruct (scrape (S k + extra) (S p) (acc ++ page_data)) as [c log].
      simpl in *. repeat split.
      * assumption.
      * destruct H as [H|[H|[H|H]]]; try (inversion H; lia).
        apply IH2 in H. lia.
      * destruct H as [H|[H|[H|H]]]; try (inversion H; lia).
        apply IH2 in H. lia.
      * intros data Hdata. f_equal. apply (IH3 data).
        intros i Hi. apply Hdata. lia.
Qed.

(** Pages [p .. p+k-1] continue and extraction succeeds on each: the loop
    arrives at page [p+k] with their records. *)
Lemma scrape_prefix k : forall p acc fuel soups data,
  (forall i, p <= i < p + k ->
     page_of i (soups i) /\ has_data (soups i) = true /\
     process_page (soups i) = ret (data i)) ->
  scrape (k + fuel) p acc =
  let (c, log) := scrape fuel (p + k) (acc ++ flat_map data (seq p k)) in
  (c, flat_map main_round (seq p k) ++ log).
Proof.
  induction k as [|k IH]; intros p acc fuel soups data H.
  - simpl. rewrite Nat.add_0_r, app_nil_r.
    now destruct (scrape fuel p acc).
  - destruct (H p ltac:(lia)) as (Hp & Hd & He).
    change (S k + fuel) with (S (k + fuel)).
    rewrite (scrape_continue _ _ _ _ Hp Hd), He. unfold ret.
    rewrite (IH (S p) _ fuel soups data) by (intros i Hi; apply H; lia).
    replace (S p + k) with (p + S k) by lia.
    cbn [seq flat_map]. rewrite <- !app_assoc.
    now destruct (scrape fuel (p + S k) _).
Qed.

End MainLoop.

Lemma scrape_raises parse guess server fuel p acc f :
  server (current_url p) 0 = Raises f ->
  Main.scrape parse guess server (S fuel) p acc =
  (Uncaught (ClientError f), [Print (Processing (p + 1)); Request p]).
Proof. intros H. simpl. unfold Main.requests_get. now rewrite H. Qed.

Lemma scrape_failed_status parse guess server fuel p acc r :
  server (current_url p) 0 = Returns r -> status_code r <> 200 ->
  Main.scrape parse guess server (S fuel) p acc =
  (Returned acc, [Print (Processing (p + 1)); Request p;
                  Print (FailedToRetrieve (p + 1))]).
Proof.
  intros H Hs. simpl. unfold Main.requests_get. rewrite H.
  now rewrite (proj2 (Nat.eqb_neq _ _) Hs).
Qed.

Lemma main_result_until_stop parse guess server k extra soups :
  (forall i, i < k -> main_page parse guess server i (soups i) /\
                      has_data (soups i) = true) ->
  (exists s, main_page parse guess server k s /\ has_data s = false) ->
  fst (Main.get_add_distributors parse guess server (S k + extra)) =
  completion_of (collect (map soups (seq 0 k)) []).
Proof.
  intros Hc Hs.
  destruct (scrape_until_stop parse guess server k 0 [] extra soups
              ltac:(intros i Hi; apply Hc; lia) Hs) as (H & _).
  unfold Main.get_add_distributors.
  destruct (Main.scrape parse guess server (S k + extra) 0 []) as [c log].
  simpl in H. rewrite <- H. now destruct c.
Qed.

Lemma main_run_raises parse guess server k extra soups data f :
  (forall i, i < k ->
     main_page parse guess server i (soups i) /\
     has_data (soups i) = true /\ process_page (soups i) = ret (data i)) ->
  server (current_url k) 0 = Raises f ->
  Main.get_add_distributors parse guess server (S k + extra) =
  (Uncaught (ClientError f),
   flat_map main_round (seq 0 k) ++ [Print (Processing (k + 1)); Request k]).
Proof.
  intros Hc Hf. unfold Main.get_add_distributors.
  replace (S k + extra) with (k + S extra) by lia.
  rewrite (scrape_prefix parse guess server k 0 [] (S extra) soups data)
    by (intros i Hi; apply Hc; lia).
  simpl Nat.add. now rewrite (scrape_raises _ _ _ _ _ _ f Hf).
Qed.

Lemma main_run_failed_status parse guess server k extra soups data r :
  (forall i, i < k ->
     main_page parse guess server i (soups i) /\
     has_data (soups i) = true /\ process_page (soups i) = ret (data i)) ->
  server (current_url k) 0 = Returns r -> status_code r <> 200 ->
  Main.get_add_distributors parse guess server (S k + extra) =
  (Returned (flat_map data (seq 0 k)),
   flat_map main_round (seq 0 k)
   ++ [Print (Processing (k + 1)); Request k; Print (FailedToRetrieve (k + 1));
       Print ScrapingComplete;
       Print (NumberOfADD (List.length (flat_map data (seq 0 k))))]).
Proof.
  intros Hc Hr Hs. unfold Main.get_add_distributors.
  replace (S k + extra) with (k + S extra) by lia.
  rewrite (scrape_prefix parse guess server k 0 [] (S extra) soups data)
    by (intros i Hi; apply Hc; lia).
  simpl Nat.add. rewrite (scrape_failed_status _ _ _ _ _ _ r Hr Hs).
  simpl. now rewrite <- app_assoc.
Qed.

(** *** The loops of [async.py] *)

Section AsyncLoop.

Variable parse : str -> node.
Variable server : world.

#[local] Abbreviation discover := (Async.discover parse server).
#[local] Abbreviation gather := (Async.gather server).
#[local] Abbreviation drain := (Async.drain parse).
#[local] Abbreviation text_of := (async_text server).

Lemma fetch_page_text i n t :
  text_of i n t -> Async.fetch_page server (current_url i) n = ret t.
Proof. intros (r & Hr & Ht). unfold Async.fetch_page. now rewrite Hr, Ht. Qed.

Lemma discover_stop fuel p tasks t :
  text_of p 0 t -> has_data (parse t) = false ->
  discover (S fuel) p tasks =
  (Returned tasks, [Print (Processing (p + 1)); Request p; Evaluated p false]).
Proof.
  intros Ht Hd. simpl. rewrite (fetch_page_text _ _ _ Ht). simpl.
  now rewrite Hd.
Qed.

Lemma discover_continue fuel p tasks t :
  text_of p 0 t -> has_data (parse t) = true ->
  discover (S fuel) p tasks =
  let (c, log) := discover fuel (S p) (tasks ++ [current_url p]) in
  (c, async_round p ++ log).
Proof.
  intros Ht Hd. simpl. rewrite (fetch_page_text _ _ _ Ht). simpl.
  rewrite Hd. simpl. now rewrite Nat.add_1_r.
Qed.

Lemma discover_raises fuel p tasks f :
  server (current_url p) 0 = Raises f ->
  discover (S fuel) p tasks =
  (Uncaught (ClientError f), [Print (Processing (p + 1)); Request p]).
Proof. intros H. simpl. unfold Async.fetch_page. now rewrite H. Qed.

(** Pages [p .. p+k-1] continue: a task is created for each and the loop
    arrives at page [p+k]. *)
Lemma discover_prefix k : forall p tasks fuel texts,
  (forall i, p <= i < p + k ->
     text_of i 0 (texts i) /\ has_data (parse (texts i)) = true) ->
  discover (k + fuel) p tasks =
  let (c, log) := discover fuel (p + k) (tasks ++ map current_url (seq p k)) in
  (c, flat_map async_round (seq p k) ++ log).
Proof.
  induction k as [|k IH]; intros p tasks fuel texts H.
  - simpl. rewrite Nat.add_0_r, app_nil_r.
    now destruct (discover fuel p tasks).
  - destruct (H p ltac:(lia)) as (Hp & Hd).
    change (S k + fuel) with (S (k + fuel)).
    rewrite (discover_continue _ _ _ _ Hp Hd).
    rewrite (IH (S p) _ fuel texts) by (intros i Hi; apply H; lia).
    replace (S p + k) with (p + S k) by lia.
    cbn [seq flat_map map]. rewrite <- !app_assoc.
    now destruct (discover fuel (p + S k) _).
Qed.

Lemma gather_all pages texts :
  (forall i, In i pages -> text_of i 1 (texts i)) ->
  gather (map current_url pages) = ret (map texts pages).
Proof.
  induction pages as [|i pages IH]; intros H; simpl; [reflexivity|].
  rewrite (fetch_page_text _ _ _ (H i (or_introl eq_refl))). simpl.
  rewrite IH by (intros j Hj; apply H; now right). reflexivity.
Qed.

(** While the condition holds on the responses, the last loop is the
    collection of their records. *)
Lemma drain_all responses : forall all_data,
  (forall t, In t responses -> has_data (parse t) = true) ->
  drain responses all_data = collect (map parse responses) all_data.
Proof.
  induction responses as [|t responses IH]; intros all_data H; simpl;
    [reflexivity|].
  rewrite (H t (or_introl eq_refl)).
  destruct (process_page (parse t)); simpl; [reflexivity|].
  apply IH. intros t' Ht'. apply H. now right.
Qed.

End AsyncLoop.

(** [async.py] when pages [0 .. k-1] continue and page [k] stops, and the
    tasks' fetches return. *)
Lemma async_until_stop parse server k extra texts second :
  (forall i, i < k -> async_text server i 0 (texts i) /\
                      has_data (parse (texts i)) = true) ->
  (exists t, async_text server k 0 t /\ has_data (parse t) = false) ->
  (forall i, i < k -> async_text server i 1 (second i)) ->
  Async.get_add_distributors parse server (S k + extra) =
  let log := flat_map async_round (seq 0 k)
             ++ [Print (Processing (k + 1)); Request k; Evaluated k false] in
  match Async.drain parse (map second (seq 0 k)) [] with
  | inl e => (Uncaught e, log ++ [Gathered])
  | inr all_data =>
      (Returned all_data,
       log ++ [Gathered; Print ScrapingComplete;
               Print (NumberOfADD (List.length all_data))])
  end.
Proof.
  intros Hc (t & Ht & Hd) Hsec. unfold Async.get_add_distributors.
  replace (S k + extra) with (k + S extra) by lia.
  rewrite (discover_prefix parse server k 0 [] (S extra) texts)
    by (intros i Hi; apply Hc; lia).
  simpl Nat.add. rewrite (discover_stop parse server extra k _ t Ht Hd).
  simpl app.
  rewrite (gather_all server (seq 0 k) second)
    by (intros i Hi; apply Hsec; apply in_seq in Hi; lia).
  unfold ret. cbv zeta.
  now destruct (Async.drain parse (map second (seq 0 k)) []).
Qed.

Lemma async_result_until_stop parse server k extra texts :
  (forall i, i < k -> async_text server i 0 (texts i) /\
                      has_data (parse (texts i)) = true) ->
  (exists t, async_text server k 0 t /\ has_data (parse t) = false) ->
  (forall i, i < k -> server (current_url i) 1 = server (current_url i) 0) ->
  fst (Async.get_add_distributors parse server (S k + extra)) =
  completion_of (collect (map (fun i => parse (texts i)) (seq 0 k)) []).
Proof.
  intros Hc Hs Hfix.
  assert (Hsec : forall i, i < k -> async_text server i 1 (texts i)).
  { intros i Hi. destruct (Hc i Hi) as [(r & Hr & Hr') _].
    exists r. now rewrite Hfix. }
  rewrite (async_until_stop parse server k extra texts texts Hc Hs Hsec).
  cbv zeta. rewrite (drain_all parse (map texts (seq 0 k)) []).
  - rewrite map_map.
    now destruct (collect (map (fun i => parse (texts i)) (seq 0 k)) []).
  - intros t' Ht'. apply in_map_iff in Ht'. destruct Ht' as (i & <- & Hi).
    apply in_seq in Hi. apply Hc. lia.
Qed.

Lemma async_run_raises parse server k extra texts f :
  (forall i, i < k ->
     async_text server i 0 (texts i) /\ has_data (parse (texts i)) = true) ->
  server (current_url k) 0 = Raises f ->
  Async.get_add_distributors parse server (S k + extra) =
  (Uncaught (ClientError f),
   flat_map async_round (seq 0 k) ++ [Print (Processing (k + 1)); Request k]).
Proof.
  intros Hc Hf. unfold Async.get_add_distributors.
  replace (S k + extra) with (k + S extra) by lia.
  rewrite (discover_prefix parse server k 0 [] (S extra) texts)
    by (intros i Hi; apply Hc; lia).
  simpl Nat.add. now rewrite (discover_raises _ _ _ _ _ f Hf).
Qed.

(** A task whose fetch raises makes [gather] raise. *)
Lemma gather_raises server pages i f :
  In i pages -> server (current_url i) 1 = Raises f ->
  exists f', Async.gather server (map current_url pages) = raise (ClientError f').
Proof.
  induction pages as [|j pages IH]; intros Hin Hf; [destruct Hin|].
  simpl. unfold Async.fetch_page at 1.
  destruct (server (current_url j) 1) as [f0|r] eqn:E.
  - now exists f0.
  - simpl. destruct Hin as [->|Hin]; [congruence|].
    destruct (IH Hin Hf) as [f' ->]. now exists f'.
Qed.

(** *** Both variants on one page sequence *)

(** Where every page up to the stopping one comes with status 200 and is
    announced as ISO-8859-1, and a page is the same at both of its
    requests, the two variants end alike. *)
Lemma variants_agree parse guess server k extra (pages : nat -> Response) :
  (forall i, i <= k ->
     server (current_url i) 0 = Returns (pages i) /\
     status_code (pages i) = 200 /\
     encoding (pages i) = Some ISO_8859_1) ->
  (forall i, i < k -> server (current_url i) 1 = server (current_url i) 0) ->
  (forall i, i < k ->
     has_data (parse (decode_latin1 (content (pages i)))) = true) ->
  has_data (parse (decode_latin1 (content (pages k)))) = false ->
  fst (Main.get_add_distributors parse guess server (S k + extra)) =
  fst (Async.get_add_distributors parse server (S k + extra)).
Proof.
  intros Hp Hfix Hc Hs.
  rewrite (main_result_until_stop parse guess server k extra
             (fun i => parse (decode_latin1 (content (pages i))))).
  - rewrite (async_result_until_stop parse server k extra
               (fun i => decode_latin1 (content (pages i)))); [reflexivity| | |].
    + intros i Hi. split; [|now apply Hc].
      exists (pages i). split; [apply Hp; lia|reflexivity].
    + eexists. split; [|exact Hs].
      exists (pages k). split; [apply Hp; lia|reflexivity].
    + assumption.
  - intros i Hi. split; [|now apply Hc].
    destruct (Hp i ltac:(lia)) as (H1 & H2 & H3).
    exists (pages i). repeat split; try assumption.
    unfold main_soup. now rewrite requests_text_latin1.
  - eexists. split; [|exact Hs].
    destruct (Hp k ltac:(lia)) as (H1 & H2 & H3).
    exists (pages k). repeat split; try assumption.
    unfold main_soup. now rewrite requests_text_latin1.
Qed.

(** *** The log of a run *)

Lemma closing_paced tail : closing tail -> forall m, paced m tail.
Proof.
  induction tail as [|e tail IH]; intros H m; simpl; [exact I|].
  assert (Ht : closing tail) by (intros x Hx; apply H; now right).
  destruct (H e (or_introl eq_refl)) as [->|[m' ->]]; now apply IH.
Qed.

Lemma closing_requests tail : closing tail -> requests tail = [].
Proof.
  induction tail as [|e tail IH]; intros H; simpl; [reflexivity|].
  rewrite IH by (intros x Hx; apply H; now right).
  now destruct (H e (or_introl eq_refl)) as [->|[m' ->]].
Qed.

Lemma main_log parse guess server fuel :
  exists tail,
    snd (Main.get_add_distributors parse guess server fuel) =
    snd (Main.scrape parse guess server fuel 0 []) ++ tail
    /\ closing tail.
Proof.
  unfold Main.get_add_distributors.
  destruct (Main.scrape parse guess server fuel 0 []) as [[d|e|] log]; simpl.
  - eexists. split; [reflexivity|].
    intros e [<-|[<-|[]]]; right; eexists; reflexivity.
  - exists []. rewrite app_nil_r. split; [reflexivity|intros ? []].
  - exists []. rewrite app_nil_r. split; [reflexivity|intros ? []].
Qed.

Lemma async_log parse server fuel :
  exists tail,
    snd (Async.get_add_distributors parse server fuel) =
    snd (Async.discover parse server fuel 0 []) ++ tail
    /\ closing tail.
Proof.
  unfold Async.get_add_distributors.
  destruct (Async.discover parse server fuel 0 []) as [[tasks|e|] log]; simpl.
  - destruct (Async.gather server tasks) as [e|responses]; simpl.
    + exists []. rewrite app_nil_r. split; [reflexivity|intros ? []].
    + destruct (Async.drain parse responses []); simpl.
      * eexists. split; [reflexivity|]. intros e' [<-|[]]. now left.
      * eexists. split; [reflexivity|].
        intros e' [<-|[<-|[<-|[]]]]; [now left|right..]; eexists; reflexivity.
  - exists []. rewrite app_nil_r. split; [reflexivity|intros ? []].
  - exists []. rewrite app_nil_r. split; [reflexivity|intros ? []].
Qed.

Lemma requests_app l1 l2 : requests (l1 ++ l2) = requests l1 ++ requests l2.
Proof. unfold requests. apply flat_map_app. Qed.

Lemma requests_scrape parse guess server fuel : forall p acc,
  exists n, requests (snd (Main.scrape parse guess server fuel p acc)) = seq p n.
Proof.
  induction fuel as [|fuel IH]; intros p acc; simpl; [now exists 0|].
  destruct (Main.requests_get server (current_url p)) as [f|r]; simpl;
    [now exists 1|].
  destruct (Nat.eqb (status_code r) 200); simpl; [|now exists 1].
  destruct (has_data _); simpl; [|now exists 1].
  destruct (process_page _); simpl; [now exists 1|].
  destruct (IH (p + 1) (acc ++ l)) as [n Hn].
  destruct (Main.scrape parse guess server fuel (p + 1) (acc ++ l)).
  simpl in *. rewrite Hn, Nat.add_1_r. now exists (S n).
Qed.

Lemma requests_discover parse server fuel : forall p tasks,
  exists n, requests (snd (Async.discover parse server fuel p tasks)) = seq p n.
Proof.
  induction fuel as [|fuel IH]; intros p tasks; simpl; [now exists 0|].
  destruct (Async.fetch_page server (current_url p) 0) as [e|t]; simpl;
    [now exists 1|].
  destruct (has_data _); simpl; [|now exists 1].
  destruct (IH (p + 1) (tasks ++ [current_url p])) as [n Hn].
  destruct (Async.discover parse server fuel (p + 1) _).
  simpl in *. rewrite Hn, Nat.add_1_r. now exists (S n).
Qed.

Lemma seq_own_length p n l : l = seq p n -> l = seq p (List.length l).
Proof. intros ->. now rewrite length_seq. Qed.

(** *** Pacing *)

Lemma paced_app n l1 l2 :
  paced n l1 -> (forall m, paced m l2) -> paced n (l1 ++ l2).
Proof.
  revert n. induction l1 as [|e l1 IH]; intros n H1 H2; simpl; [apply H2|].
  simpl in H1.
  destruct e as [m|q|q [|]|q|q|]; try destruct H1 as [Hq H1];
    try split; auto.
Qed.

Lemma paced_sound log : forall n pre,
  paced n log ->
  (forall k, k < n -> In (Evaluated k true) pre) ->
  forall before e after,
    log = before ++ e :: after ->
    (forall k, issues e = Some (S k) -> In (Evaluated k true) (pre ++ before))
    /\ (forall p, e = TaskRequest p -> In (Evaluated p true) (pre ++ before)).
Proof.
  induction log as [|e0 log IH]; intros n pre Hp Hpre before e after Hlog.
  - destruct before; discriminate.
  - destruct before as [|b before]; simpl in Hlog; inversion Hlog; subst.
    + rewrite app_nil_r. simpl in Hp. split.
      * intros k Hk. apply Hpre.
        destruct e as [m|q|q [|]|q|q|]; simpl in Hk; inversion Hk; subst;
          destruct Hp; lia.
      * intros p ->. apply Hpre. destruct Hp. lia.
    + replace (pre ++ b :: before) with ((pre ++ [b]) ++ before)
        by (rewrite <- app_assoc; reflexivity).
      simpl in Hp.
      assert (Hold : forall k, k < n -> In (Evaluated k true) (pre ++ [b]))
        by (intros k Hk; apply in_or_app; left; now apply Hpre).
      destruct b as [m|q|q [|]|q|q|];
        try (destruct Hp as [Hq Hp]);
        try (now apply (IH n (pre ++ [_]) Hp Hold before e after eq_refl)).
      subst q. eapply (IH (S n) (pre ++ [Evaluated n true]) Hp); [|reflexivity].
      intros k Hk. destruct (Nat.eq_dec k n) as [->|Hne].
      * apply in_or_app. right. now left.
      * apply Hold. lia.
Qed.

Lemma paced_scrape parse guess server fuel : forall p acc,
  paced p (snd (Main.scrape parse guess server fuel p acc)).
Proof.
  induction fuel as [|fuel IH]; intros p acc; simpl; [exact I|].
  destruct (Main.requests_get server (current_url p)) as [f|r]; simpl; [auto|].
  destruct (Nat.eqb (status_code r) 200); simpl; [|auto].
  destruct (has_data _); simpl; [|auto].
  destruct (process_page _); simpl; [auto|].
  specialize (IH (p + 1) (acc ++ l)).
  destruct (Main.scrape parse guess server fuel (p + 1) (acc ++ l)).
  simpl in *. rewrite Nat.add_1_r in IH. auto.
Qed.

Lemma paced_discover parse server fuel : forall p tasks,
  paced p (snd (Async.discover parse server fuel p tasks)).
Proof.
  induction fuel as [|fuel IH]; intros p tasks; simpl; [exact I|].
  destruct (Async.fetch_page server (current_url p) 0) as [e|t]; simpl; [auto|].
  destruct (has_data _); simpl; [|auto].
  specialize (IH (p + 1) (tasks ++ [current_url p])).
  destruct (Async.discover parse server fuel (p + 1) _).
  simpl in *. rewrite Nat.add_1_r in IH. repeat split; auto.
Qed.

(** *** Where the tasks run *)

Lemma paced_schedule pending main observed :
  Async.schedule pending main observed ->
  forall n, paced n main -> (forall q, In q pending -> q < n) ->
  paced n observed.
Proof.
  induction 1 as [pending|pending e main observed Hw _ IH
                 |before p after main observed _ IH]; intros n Hp Hpend.
  - exact I.
  - simpl in Hp. simpl.
    destruct e as [m|q|q [|]|q|q|]; simpl in IH;
      try rewrite app_nil_r in IH;
      try (destruct Hp as [Hq Hp]); try split; auto.
    + apply IH; [assumption|]. intros q' Hq'. specialize (Hpend q' Hq'). lia.
    + apply IH; [assumption|]. intros q' Hq'.
      apply in_app_or in Hq'. destruct Hq' as [Hq'|[<-|[]]]; auto.
  - simpl. split.
    + apply Hpend. apply in_or_app. right. now left.
    + apply IH; [assumption|]. intros q Hq. apply Hpend.
      apply in_app_or in Hq. apply in_or_app. destruct Hq; [now left|].
      right. now right.
Qed.

Lemma schedule_requests pending main observed :
  Async.schedule pending main observed -> requests observed = requests main.
Proof.
  induction 1 as [|pending e main observed _ _ IH|]; simpl; auto.
  now rewrite IH.
Qed.

Lemma schedule_issues pending main observed :
  Async.schedule pending main observed ->
  forall e q, In e observed -> issues e = Some q ->
    In e main \/ In q pending \/ In (CreateTask q) main.
Proof.
  induction 1 as [|pending e0 main observed _ _ IH
                 |before p after main observed _ IH]; intros e q Hin Hq.
  - destruct Hin.
  - destruct Hin as [<-|Hin]; [left; now left|].
    destruct (IH e q Hin Hq) as [H|[H|H]].
    + left. now right.
    + apply in_app_or in H. destruct H as [H|H]; [now (right; left)|].
      destruct e0; simpl in H; try contradiction.
      destruct H as [<-|[]]. right. right. now left.
    + right. right. now right.
  - destruct Hin as [<-|Hin].
    + simpl in Hq. inversion Hq; subst. right. left.
      apply in_or_app. right. now left.
    + destruct (IH e q Hin Hq) as [H|[H|H]]; auto.
      right. left. apply in_app_or in H. apply in_or_app.
      destruct H; [now left|right; now right].
Qed.

Lemma in_async_rounds e k :
  In e (flat_map async_round (seq 0 k)) ->
  exists i, i < k /\ In e (async_round i).
Proof.
  intros H. apply in_flat_map in H. destruct H as (i & Hi & He).
  apply in_seq in Hi. exists i. split; [lia|assumption].
Qed.

(** In a complete log of [async.py] that stopped at page [k], no event is
    about a later page. *)
Lemma async_log_bound k tail e :
  closing tail ->
  In e (flat_map async_round (seq 0 k)
        ++ [Print (Processing (k + 1)); Request k; Evaluated k false] ++ tail) ->
  (forall q, issues e = Some q -> q <= k)
  /\ (forall q, e = CreateTask q -> q < k).
Proof.
  intros Htail H. apply in_app_or in H. destruct H as [H|H].
  - apply in_async_rounds in H. destruct H as (i & Hi & He).
    destruct He as [<-|[<-|[<-|[<-|[]]]]]; split; intros q Hq;
      simpl in Hq; inversion Hq; subst; lia.
  - apply in_app_or in H. destruct H as [H|H].
    + destruct H as [<-|[<-|[<-|[]]]]; split; intros q Hq;
        simpl in Hq; inversion Hq; subst; lia.
    + destruct (Htail e H) as [->|[m ->]]; split; intros q Hq; inversion Hq.
Qed.

(** *** Counting requests *)

Lemma count_cons pick f e l :
  count_where pick f (e :: l) = weight pick f e + count_where pick f l.
Proof.
  unfold count_where, weight. simpl.
  destruct (pick e) as [q|]; [|reflexivity]. now destruct (f q).
Qed.

Lemma count_app pick f l1 l2 :
  count_where pick f (l1 ++ l2) = count_where pick f l1 + count_where pick f l2.
Proof.
  unfold count_where. now rewrite filter_app, length_app.
Qed.

Lemma schedule_count_awaited f pending main observed :
  Async.schedule pending main observed ->
  count_where awaited f observed = count_where awaited f main.
Proof.
  induction 1 as [|pending e main observed _ _ IH|]; auto.
  now rewrite !count_cons, IH.
Qed.

(** With no task pending and none created, no task request shows up. *)
Lemma schedule_no_tasks f pending main observed :
  Async.schedule pending main observed ->
  pending = [] -> (forall q, ~ In (CreateTask q) main) ->
  count_where by_task f observed = count_where by_task f main.
Proof.
  induction 1 as [|pending e main observed _ _ IH
                 |before p after main observed _ IH]; intros Hp Hno.
  - reflexivity.
  - rewrite !count_cons, IH; [reflexivity| |].
    + subst pending. destruct e; try reflexivity.
      exfalso. apply (Hno page). now left.
    + intros q Hq. apply (Hno q). now right.
  - destruct before; discriminate.
Qed.

(** When [gather] has returned, each created task has issued its request,
    once. *)
Lemma schedule_count_tasks f pending main observed :
  Async.schedule pending main observed ->
  forall main1 main2,
    main = main1 ++ Gathered :: main2 ->
    (forall q, ~ In (CreateTask q) main2) ->
    count_where by_task f observed =
    List.length (filter f pending) + count_where task_made f main1
    + count_where by_task f (main1 ++ main2).
Proof.
  induction 1 as [|pending e main observed Hw Hs IH
                 |before p after main observed _ IH]; intros main1 main2 Hm Hno.
  - destruct main1; discriminate.
  - destruct main1 as [|e1 main1]; simpl in Hm; inversion Hm; subst.
    + rewrite (Hw eq_refl) in *. simpl in Hs. rewrite count_cons.
      rewrite (schedule_no_tasks f _ _ _ Hs eq_refl Hno). reflexivity.
    + rewrite count_cons, (IH main1 main2 eq_refl Hno).
      simpl app. rewrite !count_cons, filter_app, length_app.
      destruct e1; unfold weight; simpl; try lia.
      destruct (f page); simpl; lia.
  - rewrite count_cons, (IH main1 main2 Hm Hno), !filter_app, !length_app.
    unfold weight. simpl. destruct (f p); simpl; lia.
Qed.

Lemma count_rounds_awaited f a k :
  count_where awaited f (flat_map async_round (seq a k)) =
  List.length (filter f (seq a k)).
Proof.
  revert a. induction k as [|k IH]; intros a; [reflexivity|].
  cbn [seq flat_map]. rewrite count_app, IH. unfold async_round.
  rewrite !count_cons. unfold weight. simpl. destruct (f a); simpl; lia.
Qed.

Lemma count_rounds_made f a k :
  count_where task_made f (flat_map async_round (seq a k)) =
  List.length (filter f (seq a k)).
Proof.
  revert a. induction k as [|k IH]; intros a; [reflexivity|].
  cbn [seq flat_map]. rewrite count_app, IH. unfold async_round.
  rewrite !count_cons. unfold weight. simpl. destruct (f a); simpl; lia.
Qed.

Lemma count_rounds_by_task f a k :
  count_where by_task f (flat_map async_round (seq a k)) = 0.
Proof.
  revert a. induction k as [|k IH]; intros a; [reflexivity|].
  cbn [seq flat_map]. rewrite count_app, IH. reflexivity.
Qed.

Lemma count_seq_one i a k :
  List.length (filter (Nat.eqb i) (seq a k)) =
  if Nat.leb a i && Nat.ltb i (a + k) then 1 else 0.
Proof.
  revert a. induction k as [|k IH]; intros a; simpl.
  - destruct (Nat.leb_spec a i), (Nat.ltb_spec i (a + 0)); simpl;
      try reflexivity; lia.
  - destruct (Nat.eqb_spec i a) as [Heq|Hne]; simpl; rewrite IH;
      destruct (Nat.leb_spec (S a) i), (Nat.leb_spec a i),
        (Nat.ltb_spec i (S a + k)), (Nat.ltb_spec i (a + S k));
      simpl; try reflexivity; lia.
Qed.

Lemma count_seq_all a k :
  List.length (filter (fun _ : nat => true) (seq a k)) = k.
Proof.
  revert a. induction k as [|k IH]; intros a; simpl; [reflexivity|].
  now rewrite IH.
Qed.

Lemma closing_count pick f tail :
  closing tail ->
  pick Gathered = None -> (forall m, pick (Print m) = None) ->
  count_where pick f tail = 0.
Proof.
  intros Hc Hg Hp. induction tail as [|e tail IH]; [reflexivity|].
  rewrite count_cons, IH by (intros x Hx; apply Hc; now right).
  unfold weight.
  destruct (Hc e (or_introl eq_refl)) as [->|[m ->]]; now rewrite ?Hg, ?Hp.
Qed.

Lemma count_issues f log :
  count_where issues f log =
  count_where awaited f log + count_where by_task f log.
Proof.
  induction log as [|e log IH]; [reflexivity|].
  rewrite !count_cons, IH. unfold weight.
  destruct e; simpl; try destruct (f page); lia.
Qed.

(** The requests of a complete run of [async.py] that stopped at page
    [p]: the loop requests pages 0 .. p, the tasks pages 0 .. p-1. *)
Lemma async_request_counts f p tail observed :
  closing tail ->
  Async.schedule []
    ((flat_map async_round (seq 0 p)
      ++ [Print (Processing (p + 1)); Request p; Evaluated p false])
     ++ Gathered :: tail) observed ->
  count_where awaited f observed =
    List.length (filter f (seq 0 p)) + (if f p then 1 else 0)
  /\ count_where by_task f observed = List.length (filter f (seq 0 p)).
Proof.
  intros Hc Hs. split.
  - rewrite (schedule_count_awaited f _ _ _ Hs).
    rewrite !count_app, count_rounds_awaited, !count_cons.
    rewrite (closing_count awaited f tail Hc) by reflexivity.
    unfold weight. simpl. change (count_where awaited f []) with 0.
    destruct (f p); lia.
  - rewrite (schedule_count_tasks f _ _ _ Hs _ tail eq_refl).
    + rewrite !count_app, count_rounds_made, count_rounds_by_task, !count_cons.
      rewrite (closing_count by_task f tail Hc) by reflexivity.
      unfold weight. simpl.
      change (count_where by_task f []) with 0.
      change (count_where task_made f []) with 0. lia.
    + intros q Hq. destruct (Hc _ Hq) as [H|[m H]]; discriminate.
Qed.

(** *** The sample servers *)

Lemma two_pages_main i :
  i < 2 ->
  main_page Fixtures.parse Fixtures.guess Fixtures.two_pages i
    (Fixtures.two_soups i) /\
  classify (Fixtures.two_soups i) = Continue.
Proof.
  intros Hi. destruct i as [|[|i]]; [| |exfalso; lia].
  - split; [|reflexivity].
    exists Fixtures.acme_response. repeat split; reflexivity.
  - split; [|reflexivity].
    exists Fixtures.beta_response. repeat split; reflexivity.
Defined.

Lemma two_pages_async i :
  i < 2 ->
  async_text Fixtures.two_pages i 0 (Fixtures.two_texts i) /\
  classify (Fixtures.parse (Fixtures.two_texts i)) = Continue.
Proof.
  intros Hi. destruct i as [|[|i]]; [| |exfalso; lia].
  - split; [|reflexivity].
    exists Fixtures.acme_response. split; reflexivity.
  - split; [|reflexivity].
    exists Fixtures.beta_response. split; reflexivity.
Defined.

Lemma two_pages_data i :
  i < 2 -> process_page (Fixtures.two_soups i) = ret (Fixtures.two_data i).
Proof.
  intros Hi. destruct i as [|[|i]]; [reflexivity|reflexivity|exfalso; lia].
Defined.

Ltac main_event :=
  apply Async.sched_main;
  [ let H := fresh in intros H; try discriminate H; reflexivity | simpl ].

Lemma two_pages_schedule :
  Async.schedule []
    (snd (Async.get_add_distributors Fixtures.parse Fixtures.two_pages 3))
    Fixtures.two_pages_observed.
Proof.
  vm_compute.
  do 6 main_event. apply (Async.sched_task [] 0 []). simpl.
  do 4 main_event. apply (Async.sched_task [] 1 []). simpl.
  do 4 main_event. apply Async.sched_end.
Defined.

Lemma changing_schedule :
  Async.schedule []
    (snd (Async.get_add_distributors Fixtures.parse Fixtures.changing 2))
    Fixtures.changing_observed.
Proof.
  vm_compute.
  do 6 main_event. apply (Async.sched_task [] 0 []). simpl.
  do 4 main_event. apply Async.sched_end.
Defined.

(** *** Pagination (C2, C8, C10, X15) *)

(** X15. Pages 0 .. k-1 are classified [Continue] and page [k] is the
    first classified [Stop].  Then, in both variants, the run ends as the
    collection of the records of pages 0 .. k-1 ends: with these records,
    page after page and row after row within a page, when every
    extraction returns (with the exception of the first extraction that
    raises otherwise), the stopping page contributing nothing; and no
    GET is issued for a page beyond [k].  For [main.py] the pages are
    those fetched with status 200; for [async.py] the page sequence is
    fixed, so the task's fetch of a page gives what the loop's fetch
    gave. *)
Theorem result_is_the_pages_before_the_first_stop
  parse guess server k extra (soups : nat -> node) (texts : nat -> str) :
  ((forall i, i < k ->
      main_page parse guess server i (soups i) /\
      classify (soups i) = Continue) ->
   (exists s, main_page parse guess server k s /\ classify s = Stop) ->
   let run := Main.get_add_distributors parse guess server (S k + extra) in
   fst run = completion_of (collect (map soups (seq 0 k)) [])
   /\ (forall q, In (Request q) (snd run) -> q <= k)
   /\ (forall data,
         (forall i, i < k -> process_page (soups i) = ret (data i)) ->
         fst run = Returned (flat_map data (seq 0 k))))
  /\
  ((forall i, i < k ->
      async_text server i 0 (texts i) /\
      classify (parse (texts i)) = Continue) ->
   (exists t, async_text server k 0 t /\ classify (parse t) = Stop) ->
   (forall i, i < k -> server (current_url i) 1 = server (current_url i) 0) ->
   let run := Async.get_add_distributors parse server (S k + extra) in
   fst run = completion_of (collect (map (fun i => parse (texts i)) (seq 0 k)) [])
   /\ (forall observed e q,
         Async.schedule [] (snd run) observed ->
         In e observed -> issues e = Some q -> q <= k)
   /\ (forall data,
         (forall i, i < k -> process_page (parse (texts i)) = ret (data i)) ->
         fst run = Returned (flat_map data (seq 0 k)))).
Proof.
  split.
  - intros Hc (s & Hs & Hd) run.
    assert (Hc' : forall i, 0 <= i < 0 + k ->
              main_page parse guess server i (soups i) /\
              has_data (soups i) = true).
    { intros i Hi. destruct (Hc i ltac:(lia)) as [H1 H2].
      split; [assumption|now apply classify_has_data]. }
    assert (Hs' : exists s, main_page parse guess server (0 + k) s /\
                            has_data s = false).
    { exists s. split; [assumption|now apply classify_has_data]. }
    destruct (scrape_until_stop parse guess server k 0 [] extra soups Hc' Hs')
      as (H1 & H2 & _).
    subst run. unfold Main.get_add_distributors.
    destruct (Main.scrape parse guess server (S k + extra) 0 []) as [c log].
    simpl in H1, H2.
    assert (Hfst : fst (match c with
                        | Returned all_data =>
                            (Returned all_data,
                             log ++ [Print ScrapingComplete;
                                     Print (NumberOfADD (List.length all_data))])
                        | Uncaught e => (Uncaught e, log)
                        | Running => (Running, log)
                        end) = c) by now destruct c.
    rewrite Hfst. repeat split.
    + assumption.
    + intros q Hq. apply (H2 q). destruct c; simpl in Hq; try assumption.
      apply in_app_or in Hq. destruct Hq as [Hq|[Hq|[Hq|[]]]];
        [assumption|discriminate..].
    + intros data Hdata. rewrite H1.
      rewrite (collect_all soups data 0 k) by (intros i Hi; apply Hdata; lia).
      reflexivity.
  - intros Hc (t & Ht & Hd) Hfix run.
    assert (Hc' : forall i, i < k -> async_text server i 0 (texts i) /\
                                     has_data (parse (texts i)) = true).
    { intros i Hi. destruct (Hc i Hi) as [H1 H2].
      split; [assumption|now apply classify_has_data]. }
    assert (Hsec : forall i, i < k -> async_text server i 1 (texts i)).
    { intros i Hi. destruct (Hc i Hi) as [(r & Hr & Hr') _].
      exists r. now rewrite Hfix. }
    assert (Hrun := async_until_stop parse server k extra texts texts Hc'
              (ex_intro _ t (conj Ht (proj1 (proj2 (classify_has_data _)) Hd)))
              Hsec).
    cbv zeta in Hrun.
    rewrite (drain_all parse (map texts (seq 0 k)) []) in Hrun.
    2:{ intros t' Ht'. apply in_map_iff in Ht'. destruct Ht' as (i & <- & Hi).
        apply in_seq in Hi. apply Hc'. lia. }
    rewrite map_map in Hrun. subst run.
    destruct (collect (map (fun i => parse (texts i)) (seq 0 k)) [])
      as [e|all_data] eqn:E; rewrite Hrun; simpl; repeat split.
    + intros observed e' q Hs Hin Hq.
      destruct (schedule_issues _ _ _ Hs e' q Hin Hq) as [H|[[]|H]].
      * rewrite <- app_assoc in H.
        apply (proj1 (async_log_bound k [Gathered] e'
                 ltac:(intros ? [<-|[]]; now left) H) q Hq).
      * rewrite <- app_assoc in H.
        apply Nat.lt_le_incl.
        apply (proj2 (async_log_bound k [Gathered] _
                 ltac:(intros ? [<-|[]]; now left) H) q eq_refl).
    + intros data Hdata.
      rewrite (collect_all (fun i => parse (texts i)) data 0 k) in E
        by (intros i Hi; apply Hdata; lia).
      discriminate.
    + intros observed e' q Hs Hin Hq.
      assert (Hcl : closing [Gathered; Print ScrapingComplete;
                             Print (NumberOfADD (List.length all_data))]).
      { intros ? [<-|[<-|[<-|[]]]]; [now left|right..]; eexists; reflexivity. }
      destruct (schedule_issues _ _ _ Hs e' q Hin Hq) as [H|[[]|H]].
      * rewrite <- app_assoc in H.
        apply (proj1 (async_log_bound k _ e' Hcl H) q Hq).
      * rewrite <- app_assoc in H.
        apply Nat.lt_le_incl.
        apply (proj2 (async_log_bound k _ _ Hcl H) q eq_refl).
    + intros data Hdata.
      rewrite (collect_all (fun i => parse (texts i)) data 0 k) in E
        by (intros i Hi; apply Hdata; lia).
      simpl in E. now inversion E.
Qed.

Lemma result_is_the_pages_before_the_first_stop_witness :
  fst (Main.get_add_distributors Fixtures.parse Fixtures.guess
         Fixtures.two_pages 3)
  = Returned [Fixtures.acme_record; Fixtures.beta_record]
  /\ fst (Async.get_add_distributors Fixtures.parse Fixtures.two_pages 3)
     = Returned [Fixtures.acme_record; Fixtures.beta_record].
Proof.
  destruct (result_is_the_pages_before_the_first_stop
              Fixtures.parse Fixtures.guess Fixtures.two_pages 2 0
              Fixtures.two_soups Fixtures.two_texts) as [Hmain Hasync].
  split.
  - refine (proj2 (proj2 (Hmain two_pages_main _)) Fixtures.two_data
              two_pages_data).
    exists Fixtures.empty_tree. split; [|reflexivity].
    exists Fixtures.empty_response. repeat split; reflexivity.
  - refine (proj2 (proj2 (Hasync two_pages_async _ _)) Fixtures.two_data _).
    + exists Fixtures.empty_text. split; [|reflexivity].
      exists Fixtures.empty_response. split; reflexivity.
    + intros i Hi. reflexivity.
    + intros i Hi. destruct i as [|[|i]];
        [reflexivity|reflexivity|exfalso; lia].
Defined.

(** C2. The two variants do not end alike on every page sequence: a first
    page sent with status 500 and a listing in its body ends the loop of
    [main.py], which checks the status, and is extracted by [async.py],
    which does not; and a listing in ISO-8859-1 announced as UTF-8 is
    decoded by [main.py] as announced and by [async.py] as ISO-8859-1. *)
Theorem variants_differ_on_status_and_charset :
  (fst (Main.get_add_distributors Fixtures.parse Fixtures.guess
          Fixtures.failing_with_listing 2) = Returned []
   /\ fst (Async.get_add_distributors Fixtures.parse
             Fixtures.failing_with_listing 2)
      = Returned [Fixtures.acme_record])
  /\ (fst (Main.get_add_distributors Fixtures.parse Fixtures.guess
             Fixtures.misannounced 2)
      = Returned [Fixtures.mangled_record]
      /\ fst (Async.get_add_distributors Fixtures.parse
                Fixtures.misannounced 2)
         = Returned [Fixtures.cafe_record]).
Proof. repeat split; vm_compute; reflexivity. Qed.

(** C8. In every run, as far as it has got: a GET for page [k+1], by the
    loop or by a task, comes after the loop condition was found to hold on
    page [k] (and a task's GET for a page after it was found to hold on
    that very page); the pages the loop requests are 0, 1, 2, ... in this
    order, without a gap.  For [async.py] this holds wherever the created
    tasks get to run. *)
Theorem discovery_is_sequential parse guess server fuel :
  (discovery_sequential (snd (Main.get_add_distributors parse guess server fuel))
   /\ requests (snd (Main.get_add_distributors parse guess server fuel)) =
      seq 0 (List.length
               (requests (snd (Main.get_add_distributors parse guess server fuel)))))
  /\ (forall observed,
        Async.schedule [] (snd (Async.get_add_distributors parse server fuel))
                       observed ->
        discovery_sequential observed /\ tasks_follow observed /\
        requests observed = seq 0 (List.length (requests observed))).
Proof.
  split.
  - destruct (main_log parse guess server fuel) as (tail & -> & Htail). split.
    + intros before e after k Hlog Hk.
      assert (Hp : paced 0 (snd (Main.scrape parse guess server fuel 0 []) ++ tail))
        by (apply paced_app; [apply paced_scrape|now apply closing_paced]).
      exact (proj1 (paced_sound _ 0 [] Hp ltac:(intros; lia)
                      before e after Hlog) k Hk).
    + destruct (requests_scrape parse guess server fuel 0 []) as [n Hn].
      apply seq_own_length with n.
      now rewrite requests_app, Hn, (closing_requests tail), app_nil_r.
  - intros observed Hs.
    destruct (async_log parse server fuel) as (tail & Hlog & Htail).
    rewrite Hlog in Hs.
    assert (Hp : paced 0 observed).
    { apply (paced_schedule _ _ _ Hs); [|intros ? []].
      apply paced_app; [apply paced_discover|now apply closing_paced]. }
    repeat split.
    + intros before e after k Hobs Hk.
      exact (proj1 (paced_sound _ 0 [] Hp ltac:(intros; lia)
                      before e after Hobs) k Hk).
    + intros before p after Hobs.
      exact (proj2 (paced_sound _ 0 [] Hp ltac:(intros; lia)
                      before _ after Hobs) p eq_refl).
    + destruct (requests_discover parse server fuel 0 []) as [n Hn].
      apply seq_own_length with n.
      rewrite (schedule_requests _ _ _ Hs).
      now rewrite requests_app, Hn, (closing_requests tail), app_nil_r.
Qed.

Lemma discovery_is_sequential_witness :
  discovery_sequential Fixtures.two_pages_observed
  /\ tasks_follow Fixtures.two_pages_observed.
Proof.
  destruct (proj2 (discovery_is_sequential Fixtures.parse Fixtures.guess
                     Fixtures.two_pages 3) _ two_pages_schedule)
    as (H1 & H2 & _).
  exact (conj H1 H2).
Defined.

(** C10. In [async.py], with [p] pages on which the loop condition holds
    followed by one on which it fails: each of the [p] pages is requested
    twice, once by the awaited fetch of the loop and once by the task
    created for it, the stopping page once, which makes 2p+1 requests;
    the records are those the last loop draws from the tasks' responses,
    the responses the condition was evaluated on in the first loop having
    no part in them; they are the records of the pages as classified when
    the second fetch of each page gives what the first gave. *)
Theorem continuing_pages_are_fetched_twice
  parse server p extra (first second : nat -> str) :
  (forall i, i < p ->
     async_text server i 0 (first i) /\
     classify (parse (first i)) = Continue) ->
  (exists t, async_text server p 0 t /\ classify (parse t) = Stop) ->
  (forall i, i < p -> async_text server i 1 (second i)) ->
  let run := Async.get_add_distributors parse server (S p + extra) in
  fst run = completion_of (Async.drain parse (map second (seq 0 p)) [])
  /\ (forall observed,
        Async.schedule [] (snd run) observed ->
        (forall i, i < p ->
           count_where awaited (Nat.eqb i) observed = 1 /\
           count_where by_task (Nat.eqb i) observed = 1)
        /\ count_where awaited (Nat.eqb p) observed = 1
        /\ count_where by_task (Nat.eqb p) observed = 0
        /\ count_where issues (fun _ => true) observed = 2 * p + 1)
  /\ ((forall i, i < p -> second i = first i) ->
      fst run =
      completion_of (collect (map (fun i => parse (first i)) (seq 0 p)) [])).
Proof.
  intros Hc (t & Ht & Hd) Hsec run.
  assert (Hc' : forall i, i < p -> async_text server i 0 (first i) /\
                                   has_data (parse (first i)) = true).
  { intros i Hi. destruct (Hc i Hi) as [H1 H2].
    split; [assumption|now apply classify_has_data]. }
  assert (Hrun := async_until_stop parse server p extra first second Hc'
            (ex_intro _ t (conj Ht (proj1 (proj2 (classify_has_data _)) Hd)))
            Hsec).
  cbv zeta in Hrun. fold run in Hrun.
  assert (Hfst : fst run =
                 completion_of (Async.drain parse (map second (seq 0 p)) [])).
  { rewrite Hrun. now destruct (Async.drain parse (map second (seq 0 p)) []). }
  assert (Hlog : exists tail, closing tail /\
            snd run = (flat_map async_round (seq 0 p)
                       ++ [Print (Processing (p + 1)); Request p;
                           Evaluated p false])
                      ++ Gathered :: tail).
  { rewrite Hrun.
    destruct (Async.drain parse (map second (seq 0 p)) []) as [e|d]; simpl.
    - exists []. split; [intros ? []|reflexivity].
    - eexists. split; [|reflexivity].
      intros e' [<-|[<-|[]]]; right; eexists; reflexivity. }
  split; [exact Hfst|split].
  - intros observed Hs. destruct Hlog as (tail & Hcl & Hlog).
    rewrite Hlog in Hs.
    repeat split.
    + destruct (async_request_counts (Nat.eqb i) p tail observed Hcl Hs)
        as [-> _].
      rewrite count_seq_one.
      destruct (Nat.leb_spec 0 i), (Nat.ltb_spec i (0 + p)),
        (Nat.eqb_spec i p); simpl; lia.
    + destruct (async_request_counts (Nat.eqb i) p tail observed Hcl Hs)
        as [_ ->].
      rewrite count_seq_one.
      destruct (Nat.leb_spec 0 i), (Nat.ltb_spec i (0 + p)); simpl; lia.
    + destruct (async_request_counts (Nat.eqb p) p tail observed Hcl Hs)
        as [-> _].
      rewrite count_seq_one, Nat.eqb_refl.
      destruct (Nat.leb_spec 0 p), (Nat.ltb_spec p (0 + p)); simpl; lia.
    + destruct (async_request_counts (Nat.eqb p) p tail observed Hcl Hs)
        as [_ ->].
      rewrite count_seq_one.
      destruct (Nat.leb_spec 0 p), (Nat.ltb_spec p (0 + p)); simpl; lia.
    + rewrite count_issues.
      destruct (async_request_counts (fun _ => true) p tail observed Hcl Hs)
        as [-> ->].
      rewrite count_seq_all. lia.
  - intros Hsame. rewrite Hfst.
    rewrite (map_ext_in second first) by (intros i Hi; apply Hsame;
                                          apply in_seq in Hi; lia).
    rewrite (drain_all parse (map first (seq 0 p)) []).
    + now rewrite map_map.
    + intros t' Ht'. apply in_map_iff in Ht'. destruct Ht' as (i & <- & Hi).
      apply in_seq in Hi. apply Hc'. lia.
Qed.

Lemma continuing_pages_are_fetched_twice_witness :
  fst (Async.get_add_distributors Fixtures.parse Fixtures.changing 2)
  = Returned [Fixtures.beta_record]
  /\ count_where issues (fun _ => true) Fixtures.changing_observed = 3.
Proof.
  destruct (continuing_pages_are_fetched_twice
              Fixtures.parse Fixtures.changing 1 0
              (fun _ => Fixtures.listing_text (lit "Acme Pharma") (lit "CA"))
              (fun _ => Fixtures.listing_text (lit "Beta Distribution")
                          (lit "TX")))
    as (Hres & Hcount & _).
  - intros i Hi. destruct i as [|i]; [|exfalso; lia].
    split; [|reflexivity].
    exists Fixtures.acme_response. split; reflexivity.
  - exists Fixtures.empty_text. split; [|reflexivity].
    exists Fixtures.empty_response. split; reflexivity.
  - intros i Hi. destruct i as [|i]; [|exfalso; lia].
    exists Fixtures.beta_response. split; reflexivity.
  - split; [exact Hres|].
    exact (proj2 (proj2 (proj2 (Hcount _ changing_schedule)))).
Defined.

(** *** Classification and extraction (C3, C9) *)

(** The loop condition in terms of [find]. *)
Lemma classify_continue_find (soup : node) :
  (classify soup = Continue <->
   exists div_info table cell,
     find_class "div" "info" soup = Some div_info /\
     find "table" div_info = Some table /\
     inside table cell /\ is_tag "td" cell = true)
  /\ (classify soup = Stop <-> classify soup <> Continue).
Proof.
  split.
  2:{ destruct (classify soup); split; congruence. }
  unfold classify, has_data.
  destruct (find_class "div" "info" soup) as [d|] eqn:Ed.
  2:{ split; [discriminate|]. intros (d & t & c & H & _). discriminate. }
  destruct (find "table" d) as [t|] eqn:Et.
  2:{ split; [discriminate|]. intros (d' & t & c & H & H' & _).
      inversion H; subst. congruence. }
  destruct (find_all "td" t) as [|c cells] eqn:E.
  - split; [discriminate|]. intros (d' & t' & c & H & H' & Hin & Htd).
    inversion H; subst. rewrite Et in H'. inversion H'; subst.
    unfold find_all in E.
    rewrite (filter_nil_none (is_tag "td")) in E.
    apply descendants_inside in Hin. rewrite (E c Hin) in Htd. discriminate.
  - split; [|reflexivity]. intros _. exists d, t, c.
    assert (Hc : In c (find_all "td" t)) by (rewrite E; now left).
    unfold find_all in Hc. apply filter_In in Hc. destruct Hc as [Hc Htd].
    repeat split; try assumption. now apply descendants_inside.
Qed.

(** [find] and the first node in document order. *)
Lemma first_among_filter (P : node -> Prop) (f : node -> bool) :
  (forall y, P y <-> f y = true) ->
  forall cs,
    Forall (fun c => forall x, hd_error (filter f (descendants c)) = Some x
                               <-> first_inside P c x) cs ->
    forall x, hd_error (filter f (descendants_of_list cs)) = Some x
              <-> first_among P cs x.
Proof.
  intros Hpf cs Hcs. induction cs as [|c cs IH]; intros x.
  - split; [discriminate|]. intros H. inversion H.
  - inversion Hcs as [|? ? Hc Hcs']; subst. specialize (IH Hcs').
    unfold descendants_of_list in *. cbn [flat_map app filter].
    rewrite filter_app.
    destruct (f c) eqn:Efc.
    + assert (Hp : P c) by now apply Hpf.
      split.
      * intros H. inversion H; subst. now apply first_here.
      * intros H.
        inversion H as [c' cs' _|name cls sub cs' x' Hn _|c' cs' x' Hn _ _];
          subst; [reflexivity|contradiction|contradiction].
    + assert (Hnot : ~ P c) by (intros Hp; apply Hpf in Hp; congruence).
      destruct (filter f (descendants c)) as [|y ys] eqn:Ed.
      * assert (Hnone : forall y, inside c y -> ~ P y).
        { intros y Hy Hp. apply Hpf in Hp. apply descendants_inside in Hy.
          rewrite (proj1 (filter_nil_none f (descendants c)) Ed y Hy) in Hp.
          discriminate. }
        cbn [app]. split.
        -- intros H. apply first_later; try assumption. now apply IH.
        -- intros H.
           inversion H as [c' cs' Hp|name cls sub cs' x' _ Hsub
                          |c' cs' x' _ _ Hrest]; subst.
           ++ contradiction.
           ++ assert (Hx := proj2 (Hc x) Hsub). discriminate.
           ++ now apply IH.
      * cbn [app hd_error]. split.
        -- intros H. inversion H; subst.
           assert (Hx : first_inside P c x) by (apply Hc; reflexivity).
           destruct c as [?|?|name cls sub]; try contradiction.
           now apply first_below.
        -- intros H.
           assert (Hy : In y (filter f (descendants c)))
             by (rewrite Ed; now left).
           apply filter_In in Hy. destruct Hy as [Hy Hfy].
           inversion H as [c' cs' Hp|name cls sub cs' x' _ Hsub
                          |c' cs' x' _ Hnone _]; subst.
           ++ contradiction.
           ++ exact (proj2 (Hc x) Hsub).
           ++ exfalso. apply (Hnone y).
              ** now apply descendants_inside.
              ** now apply Hpf.
Qed.

Lemma first_inside_filter (P : node -> Prop) (f : node -> bool) :
  (forall y, P y <-> f y = true) ->
  forall n x, hd_error (filter f (descendants n)) = Some x
              <-> first_inside P n x.
Proof.
  intros Hpf. induction n as [s|s|name cls cs IH] using node_ind; intros x.
  - split; [discriminate|intros []].
  - split; [discriminate|intros []].
  - rewrite descendants_tag. now apply first_among_filter.
Qed.

Lemma is_named_tag name y : is_named name y <-> is_tag name y = true.
Proof.
  split.
  - intros (cls & cs & ->). cbv [is_tag]. apply String.eqb_refl.
  - destruct y as [s|s|name' cls cs]; cbv [is_tag]; try discriminate.
    intros H. apply String.eqb_eq in H. subst. now exists cls, cs.
Qed.

Lemma is_info_div_tag y :
  is_info_div y <-> is_tag "div" y && has_class "info" y = true.
Proof.
  split.
  - intros (cls & cs & -> & Hin). cbv [is_tag has_class].
    rewrite String.eqb_refl. cbv [andb]. apply existsb_exists.
    exists "info". split; [assumption|apply String.eqb_refl].
  - destruct y as [s|s|name cls cs]; cbv [is_tag has_class];
      try discriminate.
    intros H. apply andb_true_iff in H. destruct H as [Hn Hc].
    apply String.eqb_eq in Hn. subst.
    apply existsb_exists in Hc. destruct Hc as (c & Hin & Hc).
    apply String.eqb_eq in Hc. subst. now exists cls, cs.
Qed.

Lemma find_first_inside name n x :
  find name n = Some x <-> first_inside (is_named name) n x.
Proof. apply first_inside_filter. apply is_named_tag. Qed.

Lemma find_class_first_inside n x :
  find_class "div" "info" n = Some x <-> first_inside is_info_div n x.
Proof. apply first_inside_filter. apply is_info_div_tag. Qed.

(** C3. A page is classified [Continue] exactly when the document has the
    content container, the container has a table, and somewhere inside
    that table there is a [td]: the container is the first node of the
    document, in document order, that is a [div] with [info] among its
    classes, and the table the first [table] inside the container.  On
    every other page the classification is [Stop]. *)
Theorem classify_continue_iff (soup : node) :
  (classify soup = Continue <->
   exists div_info table cell,
     first_inside is_info_div soup div_info /\
     first_inside (is_named "table") div_info table /\
     inside table cell /\ is_named "td" cell)
  /\ (classify soup = Stop <->
      ~ exists div_info table cell,
          first_inside is_info_div soup div_info /\
          first_inside (is_named "table") div_info table /\
          inside table cell /\ is_named "td" cell).
Proof.
  assert (H : classify soup = Continue <->
              exists div_info table cell,
                first_inside is_info_div soup div_info /\
                first_inside (is_named "table") div_info table /\
                inside table cell /\ is_named "td" cell).
  { rewrite (proj1 (classify_continue_find soup)). split.
    - intros (d & t & c & Hd & Ht & Hc & Htd). exists d, t, c.
      rewrite <- find_class_first_inside, <- find_first_inside, is_named_tag.
      tauto.
    - intros (d & t & c & Hd & Ht & Hc & Htd). exists d, t, c.
      rewrite find_class_first_inside, find_first_inside, <- is_named_tag.
      tauto. }
  split; [exact H|].
  rewrite <- H. destruct (classify soup); split; congruence.
Qed.

(** Extraction in terms of [find]: without the container, or without a
    table in it, the empty list; on a table with a first row, the headers
    are the texts of that row's [th] cells and the result has one record
    per later row that has [td] cells, in row order, rows without cells
    being left out; a record is [dict(zip(headers, cells))]. *)
Lemma process_page_extracts (soup : node) :
  (find_class "div" "info" soup = None -> process_page soup = ret [])
  /\ (forall div_info,
        find_class "div" "info" soup = Some div_info ->
        find "table" div_info = None ->
        process_page soup = ret [])
  /\ (forall div_info table first_row rows,
        find_class "div" "info" soup = Some div_info ->
        find "table" div_info = Some table ->
        find_all "tr" table = first_row :: rows ->
        let headers := map text (find_all "th" first_row) in
        process_page soup =
          ret (map (record_of headers) (filter has_cells rows))
        /\ forall row,
             let cells := row_cells row in
             (forall i h c,
                 nth_error headers i = Some h ->
                 nth_error cells i = Some c ->
                 (forall j, i < j -> j < List.length cells ->
                            nth_error headers j <> Some h) ->
                 get (record_of headers row) h = Some c)
             /\ (forall h, ~ In h (firstn (List.length cells) headers) ->
                           get (record_of headers row) h = None)
             /\ (NoDup headers ->
                 record_of headers row = combine headers cells)).
Proof.
  unfold process_page. split; [|split].
  - now intros ->.
  - intros d -> Ht. now rewrite Ht.
  - intros d t r0 rows Hd Ht Hrows. rewrite Hd, Ht. split.
    + unfold find. rewrite Hrows. simpl.
      now rewrite rows_loop.
    + intros row. unfold record_of. repeat split.
      * intros i h c Hh Hc Hlast. rewrite get_dict_of.
        now apply assoc_last_position with i.
      * intros h Hh. rewrite get_dict_of. now apply assoc_last_absent.
      * intros Hnd. now apply dict_of_distinct.
Qed.

Lemma process_page_extracts_witness :
  process_page (Fixtures.listing_tree (lit "Acme Pharma") (lit "CA"))
  = ret [Fixtures.acme_record].
Proof.
  exact (proj1 (proj2 (proj2 (process_page_extracts
           (Fixtures.listing_tree (lit "Acme Pharma") (lit "CA"))))
           Fixtures.acme_div Fixtures.acme_table
           Fixtures.header_row [Fixtures.acme_row]
           eq_refl eq_refl eq_refl)).
Defined.

(** C9. A page whose table holds a cell directly, without a row around
    it: the loop condition holds on it, the table has no [tr], and
    [process_page] raises on the missing first row; the exception leaves
    both variants. *)
Theorem rowless_table_raises :
  classify Fixtures.rowless_tree = Continue
  /\ (exists div_info table,
        find_class "div" "info" Fixtures.rowless_tree = Some div_info /\
        find "table" div_info = Some table /\
        find_all "td" table <> [] /\
        find "tr" table = None)
  /\ process_page Fixtures.rowless_tree = raise AttributeError
  /\ fst (Main.get_add_distributors Fixtures.parse Fixtures.guess
            Fixtures.rowless 2) = Uncaught AttributeError
  /\ fst (Async.get_add_distributors Fixtures.parse Fixtures.rowless 2)
     = Uncaught AttributeError.
Proof.
  split; [reflexivity|split]; [|repeat split; vm_compute; reflexivity].
  eexists. eexists. repeat split; try reflexivity. discriminate.
Qed.

(** *** Decoding and failures (C5, C6, C7) *)

(** C5. A listing whose cell holds the byte 0xE9 (the letter e with acute
    accent in ISO-8859-1), sent under a header that announces UTF-8:
    [main.py] decodes the body with the announced charset and the cell
    arrives with U+FFFD in place of the letter; [async.py] decodes it as
    ISO-8859-1 and the cell arrives with U+00E9, which encodes back to the
    bytes sent. *)
Theorem main_decodes_as_announced :
  Fixtures.misannounced (current_url 0) 0
    = Fixtures.response 200 UTF_8 Fixtures.cafe_page
  /\ fst (Main.get_add_distributors Fixtures.parse Fixtures.guess
            Fixtures.misannounced 2)
     = Returned [[(lit "ORGNAME", lit "Caf" ++ [REPLACEMENT]);
                  (lit "STATECD", lit "CA")]]
  /\ fst (Async.get_add_distributors Fixtures.parse Fixtures.misannounced 2)
     = Returned [[(lit "ORGNAME", lit "Caf" ++ [233%N]);
                  (lit "STATECD", lit "CA")]]
  /\ encode_latin1 (lit "Caf" ++ [233%N]) = Some Fixtures.cafe.
Proof. repeat split; vm_compute; reflexivity. Qed.

(** C6, as stated, fails: with the host unreachable the exception of the
    first fetch leaves [get_add_distributors] in both variants. *)
Lemma network_failure_is_not_caught :
  Fixtures.unreachable (current_url 0) 0 = Raises NetworkFailure
  /\ fst (Main.get_add_distributors Fixtures.parse Fixtures.guess
            Fixtures.unreachable 1) = Uncaught (ClientError NetworkFailure)
  /\ fst (Async.get_add_distributors Fixtures.parse Fixtures.unreachable 1)
     = Uncaught (ClientError NetworkFailure).
Proof. repeat split; vm_compute; reflexivity. Qed.

(** C6, amended. After pages that continue: a status other than 200 is
    handled inside [main.py], which prints the failure and returns the
    records it has; a fetch that raises (network failure, timeout) is
    caught nowhere: the exception leaves [get_add_distributors], in
    [main.py] and in [async.py], from the loop as well as from a task, and
    the interpreter exits with status 1. *)
Theorem only_a_failed_status_is_handled
  parse guess server k extra soups data texts :
  ((forall i, i < k ->
      main_page parse guess server i (soups i) /\
      has_data (soups i) = true /\ process_page (soups i) = ret (data i)) ->
   (forall f, server (current_url k) 0 = Raises f ->
      fst (Main.get_add_distributors parse guess server (S k + extra))
      = Uncaught (ClientError f)
      /\ exit_code (fst (Main.get_add_distributors parse guess server
                           (S k + extra))) = Some 1)
   /\ (forall r, server (current_url k) 0 = Returns r ->
         status_code r <> 200 ->
         fst (Main.get_add_distributors parse guess server (S k + extra))
         = Returned (flat_map data (seq 0 k))
         /\ In (Print (FailedToRetrieve (k + 1)))
               (snd (Main.get_add_distributors parse guess server
                       (S k + extra)))))
  /\
  ((forall i, i < k ->
      async_text server i 0 (texts i) /\ has_data (parse (texts i)) = true) ->
   (forall f, server (current_url k) 0 = Raises f ->
      fst (Async.get_add_distributors parse server (S k + extra))
      = Uncaught (ClientError f)
      /\ exit_code (fst (Async.get_add_distributors parse server
                           (S k + extra))) = Some 1)
   /\ ((exists t, async_text server k 0 t /\ has_data (parse t) = false) ->
       forall i f, i < k -> server (current_url i) 1 = Raises f ->
       exists f',
         fst (Async.get_add_distributors parse server (S k + extra))
         = Uncaught (ClientError f'))).
Proof.
  split.
  - intros Hc. split.
    + intros f Hf. now rewrite (main_run_raises _ _ _ _ _ _ _ _ Hc Hf).
    + intros r Hr Hs.
      rewrite (main_run_failed_status _ _ _ _ _ _ _ _ Hc Hr Hs). simpl.
      split; [reflexivity|]. apply in_or_app. right. simpl. tauto.
  - intros Hc. split.
    + intros f Hf. now rewrite (async_run_raises _ _ _ _ _ _ Hc Hf).
    + intros (t & Ht & Hd) i f Hi Hf.
      unfold Async.get_add_distributors.
      replace (S k + extra) with (k + S extra) by lia.
      rewrite (discover_prefix parse server k 0 [] (S extra) texts)
        by (intros j Hj; apply Hc; lia).
      simpl Nat.add. rewrite (discover_stop parse server extra k _ t Ht Hd).
      simpl app.
      destruct (gather_raises server (seq 0 k) i f) as [f' Hg];
        [apply in_seq; lia|assumption|].
      rewrite Hg. now exists f'.
Qed.

Lemma only_a_failed_status_is_handled_witness :
  fst (Main.get_add_distributors Fixtures.parse Fixtures.guess
         Fixtures.dropping 2) = Uncaught (ClientError TimedOut)
  /\ fst (Main.get_add_distributors Fixtures.parse Fixtures.guess
            Fixtures.failing_later 2) = Returned [Fixtures.acme_record].
Proof.
  split.
  - refine (proj1 (proj1 (proj1 (only_a_failed_status_is_handled
             Fixtures.parse Fixtures.guess Fixtures.dropping 1 0
             Fixtures.two_soups Fixtures.two_data Fixtures.two_texts) _)
             TimedOut eq_refl)).
    intros i Hi. destruct i as [|i]; [|exfalso; lia].
    split; [|split; reflexivity].
    exists Fixtures.acme_response. repeat split; reflexivity.
  - refine (proj1 (proj2 (proj1 (only_a_failed_status_is_handled
             Fixtures.parse Fixtures.guess Fixtures.failing_later 1 0
             Fixtures.two_soups Fixtures.two_data Fixtures.two_texts) _)
             Fixtures.error_response eq_refl _)).
    + intros i Hi. destruct i as [|i]; [|exfalso; lia].
      split; [|split; reflexivity].
      exists Fixtures.acme_response. repeat split; reflexivity.
    + discriminate.
Defined.

(** C7, as stated, fails: when a page comes with status 500, [main.py]
    prints the failure and goes on to its ordinary end: the call returns
    the records it has without any error value, and the interpreter exits
    with status 0.  So it is when the first page fails, and when the
    second does. *)
Lemma failed_status_exits_with_zero :
  (Fixtures.failing (current_url 0) 0 = Returns Fixtures.error_response
   /\ Main.get_add_distributors Fixtures.parse Fixtures.guess Fixtures.failing 1
      = (Returned [],
         [Print (Processing 1); Request 0; Print (FailedToRetrieve 1);
          Print ScrapingComplete; Print (NumberOfADD 0)])
   /\ exit_code (fst (Main.get_add_distributors Fixtures.parse Fixtures.guess
                        Fixtures.failing 1)) = Some 0)
  /\
  (Fixtures.failing_later (current_url 1) 0 = Returns Fixtures.error_response
   /\ Main.get_add_distributors Fixtures.parse Fixtures.guess
        Fixtures.failing_later 2
      = (Returned [Fixtures.acme_record],
         [Print (Processing 1); Request 0; Evaluated 0 true;
          Print (Processing 2); Request 1; Print (FailedToRetrieve 2);
          Print ScrapingComplete; Print (NumberOfADD 1)])
   /\ exit_code (fst (Main.get_add_distributors Fixtures.parse Fixtures.guess
                        Fixtures.failing_later 2)) = Some 0).
Proof. repeat split; vm_compute; reflexivity. Qed.

(** C7, amended. In [main.py], when pages 0 .. k-1 continue and the fetch
    of page [k] comes back with a status other than 200, the loop ends
    there: pages 0 .. k are the ones requested, the failure is printed
    with the page number k+1, and the call returns the records of pages
    0 .. k-1 after its ordinary closing prints, with no error value; the
    interpreter exits with status 0. *)
Theorem failed_status_ends_the_loop
  parse guess server k extra soups data r :
  (forall i, i < k ->
     main_page parse guess server i (soups i) /\
     has_data (soups i) = true /\ process_page (soups i) = ret (data i)) ->
  server (current_url k) 0 = Returns r ->
  status_code r <> 200 ->
  let run := Main.get_add_distributors parse guess server (S k + extra) in
  fst run = Returned (flat_map data (seq 0 k))
  /\ requests (snd run) = seq 0 (S k)
  /\ snd run =
     flat_map main_round (seq 0 k)
     ++ [Print (Processing (k + 1)); Request k;
         Print (FailedToRetrieve (k + 1));
         Print ScrapingComplete;
         Print (NumberOfADD (List.length (flat_map data (seq 0 k))))]
  /\ exit_code (fst run) = Some 0.
Proof.
  intros Hc Hr Hs run. subst run.
  rewrite (main_run_failed_status _ _ _ _ _ _ _ _ Hc Hr Hs). cbn [fst snd].
  repeat split.
  assert (H : forall a n, requests (flat_map main_round (seq a n)) = seq a n).
  { intros a n. revert a. induction n as [|n IH]; intros a; [reflexivity|].
    cbn [seq flat_map]. rewrite requests_app, IH. reflexivity. }
  rewrite requests_app, H, seq_S. reflexivity.
Qed.

Lemma failed_status_ends_the_loop_witness :
  fst (Main.get_add_distributors Fixtures.parse Fixtures.guess
         Fixtures.failing_later 2) = Returned [Fixtures.acme_record]
  /\ exit_code (fst (Main.get_add_distributors Fixtures.parse Fixtures.guess
                       Fixtures.failing_later 2)) = Some 0.
Proof.
  assert (H : forall i, i < 1 ->
            main_page Fixtures.parse Fixtures.guess Fixtures.failing_later i
              (Fixtures.two_soups i) /\
            has_data (Fixtures.two_soups i) = true /\
            process_page (Fixtures.two_soups i) = ret (Fixtures.two_data i)).
  { intros i Hi. destruct i as [|i]; [|exfalso; lia].
    split; [|split; reflexivity].
    exists Fixtures.acme_response. repeat split; reflexivity. }
  destruct (failed_status_ends_the_loop Fixtures.parse Fixtures.guess
              Fixtures.failing_later 1 0 Fixtures.two_soups Fixtures.two_data
              Fixtures.error_response H eq_refl ltac:(discriminate))
    as (H1 & _ & _ & H4).
  exact (conj H1 H4).
Defined.

(** *** The request URL *)

(** X1. Different pages are requested under different URLs. *)
Theorem distinct_pages_have_distinct_urls p q :
  p <> q -> current_url p <> current_url q.
Proof. intros H E. apply H. now apply current_url_injective. Qed.

Lemma distinct_pages_have_distinct_urls_witness :
  current_url 0 <> current_url 1.
Proof. apply distinct_pages_have_distinct_urls. discriminate. Defined.

(** The digits of a number followed by the digit 1 read as ten times the
    number plus one. *)
Lemma digits_then_one d :
  exists d',
    NilEmpty.uint_of_string (NilEmpty.string_of_uint d ++ "1") = Some d' /\
    forall acc,
      Nat.of_uint_acc d' acc = S (Nat.tail_mul 10 (Nat.of_uint_acc d acc)).
Proof.
  induction d as [|d IH|d IH|d IH|d IH|d IH|d IH|d IH|d IH|d IH|d IH];
    [exists (Decimal.D1 Decimal.Nil); split; reflexivity|..];
    destruct IH as (d' & Hd' & Hacc); simpl; rewrite Hd';
    eexists; (split; [reflexivity|]); intros acc; simpl; apply Hacc.
Qed.

(** X2. The URL of page [p] is the fixed text around a number, the value
    of [RANGE=] up to [%2F10], and that number is [10 p + 1]: page [p]
    asks for the ten entries that start at entry [10 p + 1]. *)
Theorem range_starts_at_ten_times_the_page (page : nat) :
  exists digits number,
    current_url page = (url_head ++ digits ++ url_tail)%string /\
    NilEmpty.uint_of_string digits = Some number /\
    Nat.of_uint number = 10 * page + 1.
Proof.
  destruct (digits_then_one (Nat.to_uint page)) as (d' & Hd' & Hacc).
  exists (NilEmpty.string_of_uint (Nat.to_uint page) ++ "1")%string, d'.
  split; [|split].
  - unfold current_url, url_head, url_tail. f_equal.
    generalize (NilEmpty.string_of_uint (Nat.to_uint page)).
    intros s. induction s as [|c s IH]; simpl; [reflexivity|].
    now rewrite <- IH.
  - exact Hd'.
  - unfold Nat.of_uint. rewrite Hacc, Nat.tail_mul_spec.
    change (Nat.of_uint_acc (Nat.to_uint page) 0)
      with (Nat.of_uint (Nat.to_uint page)).
    rewrite DecimalNat.Unsigned.of_to. lia.
Qed.

(** *** Rows and cells at any depth *)

Lemma inside_trans n x y : inside n x -> inside x y -> inside n y.
Proof.
  intros H. induction H as [n c Hc|n c x Hc _ IH]; intros Hy.
  - now apply inside_deeper with c.
  - apply inside_deeper with c; auto.
Qed.

Lemma find_all_inside name n x :
  In x (find_all name n) <-> inside n x /\ is_tag name x = true.
Proof.
  unfold find_all. rewrite filter_In, descendants_inside. tauto.
Qed.

(** [find_all] looks at every depth: a row that lies inside another row
    of the table is found among the rows of the table as well, and each of
    its cells is found among the cells of the enclosing row. *)
Lemma nested_rows_share_their_cells table row inner :
  In row (find_all "tr" table) ->
  In inner (find_all "tr" row) ->
  In inner (find_all "tr" table)
  /\ forall cell, In cell (find_all "td" inner) ->
                  In cell (find_all "td" row).
Proof.
  rewrite !find_all_inside. intros [Hrow _] [Hinner Htr]. split.
  - split; [|assumption]. now apply inside_trans with row.
  - intros cell. rewrite !find_all_inside. intros [Hcell Htd].
    split; [|assumption]. now apply inside_trans with inner.
Qed.

Lemma nested_rows_share_their_cells_witness :
  In Fixtures.inner_row (find_all "tr" Fixtures.nested_table)
  /\ In Fixtures.inner_cell (find_all "td" Fixtures.outer_row).
Proof.
  destruct (nested_rows_share_their_cells Fixtures.nested_table
              Fixtures.outer_row Fixtures.inner_row) as [H1 H2].
  - simpl. tauto.
  - simpl. tauto.
  - split; [exact H1|]. apply H2. simpl. tauto.
Defined.

(** *** Pages without data *)

Lemma no_cells_in_rows table row :
  find_all "td" table = [] ->
  In row (find_all "tr" table) ->
  has_cells row = false.
Proof.
  intros Hnone Hrow. unfold has_cells, row_cells.
  destruct (find_all "td" row) as [|cell cells] eqn:E; [reflexivity|].
  exfalso.
  assert (Hcell : In cell (find_all "td" row)) by (rewrite E; now left).
  apply find_all_inside in Hrow, Hcell.
  assert (H : In cell (find_all "td" table)).
  { apply find_all_inside. split; [|tauto].
    apply inside_trans with row; tauto. }
  now rewrite Hnone in H.
Qed.

(** X3. A page on which the loop condition fails has nothing to extract:
    on it [process_page] returns the empty list, or raises when the table
    has no row at all; it never returns a record. *)
Theorem stopping_page_has_no_records soup :
  has_data soup = false ->
  process_page soup = ret [] \/
  (process_page soup = raise AttributeError /\
   exists div_info table,
     find_class "div" "info" soup = Some div_info /\
     find "table" div_info = Some table /\
     find "tr" table = None).
Proof.
  unfold has_data, process_page.
  destruct (find_class "div" "info" soup) as [div_info|]; [|now left].
  destruct (find "table" div_info) as [table|] eqn:Et; [|now left].
  destruct (find_all "td" table) as [|c cs] eqn:Etd; [intros _|discriminate].
  destruct (find "tr" table) as [first_row|] eqn:Etr.
  - left. rewrite rows_loop. simpl.
    assert (Hrows : filter has_cells (tl (find_all "tr" table)) = []).
    { apply filter_nil_none. intros row Hrow.
      apply (no_cells_in_rows table row Etd).
      destruct (find_all "tr" table); [destruct Hrow|now right]. }
    now rewrite Hrows.
  - right. split; [reflexivity|]. now exists div_info, table.
Qed.

Lemma stopping_page_has_no_records_witness :
  process_page Fixtures.header_only_tree = ret [] \/
  (process_page Fixtures.header_only_tree = raise AttributeError /\
   exists div_info table,
     find_class "div" "info" Fixtures.header_only_tree = Some div_info /\
     find "table" div_info = Some table /\
     find "tr" table = None).
Proof.
  apply stopping_page_has_no_records. reflexivity.
Defined.

(** *** The records of a page *)

Lemma setitem_keys_present d k v :
  In k (keys d) -> keys (setitem d k v) = keys d.
Proof.
  induction d as [|[k0 v0] d IH]; simpl; [intros []|].
  destruct (str_eqb k0 k) eqn:E; simpl; [reflexivity|].
  intros [H|H].
  - subst. rewrite str_eqb_refl in E. discriminate.
  - now rewrite IH.
Qed.

Lemma NoDup_setitem d k v : NoDup (keys d) -> NoDup (keys (setitem d k v)).
Proof.
  intros H. destruct (in_dec (list_eq_dec N.eq_dec) k (keys d)) as [Hin|Hout].
  - now rewrite setitem_keys_present.
  - rewrite setitem_fresh by assumption. unfold keys. rewrite map_app. simpl.
    apply NoDup_app; [assumption|repeat constructor; intros []|].
    intros x Hx [<-|[]]. contradiction.
Qed.

Lemma in_setitem d k v k0 v0 :
  In (k0, v0) (setitem d k v) -> In (k0, v0) d \/ (k0, v0) = (k, v).
Proof.
  induction d as [|[k1 v1] d IH]; simpl.
  - intros [H|[]]. now right.
  - destruct (str_eqb k1 k) eqn:E; simpl.
    + apply str_eqb_eq in E. subst k1. intros [H|H]; [now right|left; now right].
    + intros [H|H]; [left; now left|].
      destruct (IH H); [left; now right|now right].
Qed.

Lemma length_setitem d k v : List.length (setitem d k v) <= S (List.length d).
Proof.
  induction d as [|[k1 v1] d IH]; simpl; [lia|].
  destruct (str_eqb k1 k); simpl; lia.
Qed.

Lemma fold_setitem_invariants pairs : forall d,
  NoDup (keys d) ->
  let d' := fold_left (fun d kv => setitem d (fst kv) (snd kv)) pairs d in
  NoDup (keys d')
  /\ (forall k v, In (k, v) d' -> In (k, v) d \/ In (k, v) pairs)
  /\ List.length d' <= List.length d + List.length pairs.
Proof.
  induction pairs as [|[k v] pairs IH]; intros d Hd; simpl.
  - repeat split; [assumption|auto|lia].
  - destruct (IH (setitem d k v) (NoDup_setitem d k v Hd)) as (H1 & H2 & H3).
    simpl in *. repeat split; [assumption| |].
    + intros k0 v0 H. destruct (H2 k0 v0 H) as [H'|H']; [|auto].
      destruct (in_setitem _ _ _ _ _ H') as [H''|H'']; [auto|].
      right. left. now symmetry.
    + pose proof (length_setitem d k v). lia.
Qed.

Lemma record_of_invariants headers row :
  NoDup (keys (record_of headers row))
  /\ (forall k v, In (k, v) (record_of headers row) ->
                  In k headers /\ In v (row_cells row))
  /\ List.length (record_of headers row)
     <= Nat.min (List.length headers) (List.length (row_cells row)).
Proof.
  unfold record_of, dict_of, zip.
  destruct (fold_setitem_invariants (combine headers (row_cells row)) []
              ltac:(constructor)) as (H1 & H2 & H3).
  simpl in *. repeat split; try assumption.
  - destruct (H2 k v H) as [[]|H']. now apply in_combine_l in H'.
  - destruct (H2 k v H) as [[]|H']. now apply in_combine_r in H'.
  - now rewrite length_combine in H3.
Qed.

(** X4. Every record [process_page] returns comes from a row after the
    first that has cells: its keys are pairwise distinct, each key is the
    text of a header cell of the first row and each value the text of a
    cell of that row, and it has no more fields than there are headers or
    cells. *)
Theorem records_are_well_formed soup records record :
  process_page soup = ret records ->
  In record records ->
  NoDup (keys record)
  /\ exists div_info table first_row row,
       find_class "div" "info" soup = Some div_info /\
       find "table" div_info = Some table /\
       find "tr" table = Some first_row /\
       In row (tl (find_all "tr" table)) /\
       row_cells row <> [] /\
       (forall k v, In (k, v) record ->
                    In k (map text (find_all "th" first_row)) /\
                    In v (row_cells row)) /\
       List.length record
       <= Nat.min (List.length (find_all "th" first_row))
                  (List.length (row_cells row)).
Proof.
  unfold process_page.
  destruct (find_class "div" "info" soup) as [div_info|];
    [|intros H; inversion H; intros []].
  destruct (find "table" div_info) as [table|] eqn:Et;
    [|intros H; inversion H; intros []].
  destruct (find "tr" table) as [first_row|] eqn:Etr; [|discriminate].
  rewrite rows_loop. simpl. intros H. inversion H as [H']. clear H H'.
  intros Hin. apply in_map_iff in Hin. destruct Hin as (row & <- & Hrow).
  apply filter_In in Hrow. destruct Hrow as [Hrow Hcells].
  destruct (record_of_invariants (map text (find_all "th" first_row)) row)
    as (H1 & H2 & H3).
  split; [assumption|].
  exists div_info, table, first_row, row. repeat split; try assumption.
  - unfold has_cells in Hcells. now destruct (row_cells row).
  - now apply (H2 k v).
  - now apply (H2 k v).
  - now rewrite length_map in H3.
Qed.

Lemma records_are_well_formed_witness :
  NoDup (keys Fixtures.acme_record).
Proof.
  exact (proj1 (records_are_well_formed
                  (Fixtures.listing_tree (lit "Acme Pharma") (lit "CA"))
                  [Fixtures.acme_record] Fixtures.acme_record
                  eq_refl (or_introl eq_refl))).
Defined.

Lemma map_to_nil {A B} (f : A -> list B) (l : list A) :
  (forall x, f x = []) -> map f l = repeat [] (List.length l).
Proof.
  intros H. induction l as [|a l IH]; simpl; [reflexivity|].
  now rewrite H, IH.
Qed.

(** X5. The first row is always taken as the header row.  When it has no
    [th] cell (a table of data rows only), its own cells are not
    extracted and every later row that has cells gives an empty record. *)
Theorem headerless_table_gives_empty_records
  soup div_info table first_row rows :
  find_class "div" "info" soup = Some div_info ->
  find "table" div_info = Some table ->
  find_all "tr" table = first_row :: rows ->
  find_all "th" first_row = [] ->
  process_page soup = ret (repeat [] (List.length (filter has_cells rows))).
Proof.
  intros Hd Ht Hrows Hth. unfold process_page, find.
  rewrite Hd. fold (find "table" div_info). rewrite Ht, Hrows. simpl.
  rewrite Hth, rows_loop. simpl. f_equal. apply map_to_nil. reflexivity.
Qed.

Lemma headerless_table_gives_empty_records_witness :
  process_page Fixtures.headerless_tree = ret [[]].
Proof.
  exact (headerless_table_gives_empty_records Fixtures.headerless_tree
           Fixtures.headerless_div Fixtures.headerless_table
           (Fixtures.listing_row (lit "Acme Pharma") (lit "CA"))
           [Fixtures.listing_row (lit "Beta Distribution") (lit "TX")]
           eq_refl eq_refl eq_refl eq_refl).
Defined.

(** *** Decoding *)

Lemma decode_utf8_ascii bs :
  forallb is_ascii bs = true -> decode_utf8 bs = decode_latin1 bs.
Proof.
  induction bs as [|b bs IH]; [reflexivity|].
  cbn [forallb]. intros H. apply andb_true_iff in H. destruct H as [Hb Hbs].
  unfold is_ascii in Hb. cbn [decode_utf8]. rewrite Hb.
  cbn [decode_latin1 map]. f_equal. now apply IH.
Qed.

Lemma requests_text_plain guess r :
  charset_used guess r = ISO_8859_1 \/
  (charset_used guess r = UTF_8 /\ forallb is_ascii (content r) = true) ->
  requests_text guess r = decode_latin1 (content r).
Proof.
  unfold requests_text, charset_used.
  destruct (content r) as [|b bs] eqn:E; [reflexivity|].
  intros [H|[H Ha]]; rewrite H; cbn [decode]; [reflexivity|].
  now apply decode_utf8_ascii.
Qed.

(** X7. On a body of ASCII bytes only, [requests]' [Response.text] gives
    the same text whether the charset it decodes with (the announced one,
    or else the guessed one) is ISO-8859-1 or UTF-8, and it is the text
    [async.py] gets with its fixed ISO-8859-1.  Other charsets are not
    covered: under them the texts can differ on ASCII bodies as well. *)
Theorem ascii_bodies_decode_alike guess r :
  forallb is_ascii (content r) = true ->
  charset_used guess r = ISO_8859_1 \/ charset_used guess r = UTF_8 ->
  requests_text guess r = aiohttp_text ISO_8859_1 r.
Proof.
  intros Ha [H|H]; rewrite requests_text_plain; auto.
Qed.

Lemma ascii_bodies_decode_alike_witness :
  requests_text Fixtures.guess Fixtures.acme_as_utf8
  = aiohttp_text ISO_8859_1 Fixtures.acme_as_utf8
  /\ requests_text Fixtures.guess Fixtures.acme_unannounced
     = aiohttp_text ISO_8859_1 Fixtures.acme_unannounced.
Proof.
  split; apply ascii_bodies_decode_alike;
    try reflexivity; right; reflexivity.
Defined.

(** X8. [fetch_page] loses nothing of a body and rejects none: for every
    response it returns a text with one code point below 256 per byte of
    the body, and encoding the text as ISO-8859-1 gives the body back. *)
Theorem fetch_page_is_lossless server url n r :
  server url n = Returns r ->
  exists t,
    Async.fetch_page server url n = ret t
    /\ List.length t = List.length (content r)
    /\ Forall (fun c => (c < 256)%N) t
    /\ encode_latin1 t = Some (content r).
Proof.
  intros H. unfold Async.fetch_page. rewrite H.
  exists (decode_latin1 (content r)). repeat split.
  - apply length_map.
  - unfold decode_latin1. apply Forall_forall. intros c Hc.
    apply in_map_iff in Hc. destruct Hc as (b & <- & _).
    pose proof (Byte.to_N_bounded b). lia.
  - apply latin1_round_trip.
Qed.

Lemma fetch_page_is_lossless_witness :
  exists t,
    Async.fetch_page Fixtures.misannounced (current_url 0) 0 = ret t
    /\ List.length t = List.length Fixtures.cafe_page
    /\ Forall (fun c => (c < 256)%N) t
    /\ encode_latin1 t = Some Fixtures.cafe_page.
Proof.
  exact (fetch_page_is_lossless Fixtures.misannounced (current_url 0) 0
           {| status_code := 200; encoding := Some UTF_8;
              content := Fixtures.cafe_page |} eq_refl).
Defined.

(** X9. The two variants end alike on a fixed page sequence in which
    every page up to the stopping one comes with status 200 and is decoded
    by [requests] (with the announced charset, or else the guessed one)
    as ISO-8859-1, or as UTF-8 while its body is ASCII only. *)
Theorem variants_agree_on_plain_pages
  parse guess server k extra (pages : nat -> Response) :
  (forall i, i <= k ->
     server (current_url i) 0 = Returns (pages i) /\
     status_code (pages i) = 200 /\
     (charset_used guess (pages i) = ISO_8859_1 \/
      (charset_used guess (pages i) = UTF_8 /\
       forallb is_ascii (content (pages i)) = true))) ->
  (forall i, i < k -> server (current_url i) 1 = server (current_url i) 0) ->
  (forall i, i < k ->
     has_data (parse (decode_latin1 (content (pages i)))) = true) ->
  has_data (parse (decode_latin1 (content (pages k)))) = false ->
  fst (Main.get_add_distributors parse guess server (S k + extra)) =
  fst (Async.get_add_distributors parse server (S k + extra)).
Proof.
  intros Hp Hfix Hc Hs.
  assert (Htext : forall i, i <= k ->
            requests_text guess (pages i) = decode_latin1 (content (pages i))).
  { intros i Hi. destruct (Hp i Hi) as (_ & _ & H).
    now apply requests_text_plain. }
  rewrite (main_result_until_stop parse guess server k extra
             (fun i => parse (decode_latin1 (content (pages i))))).
  - rewrite (async_result_until_stop parse server k extra
               (fun i => decode_latin1 (content (pages i)))); [reflexivity| | |].
    + intros i Hi. split; [|now apply Hc].
      exists (pages i). split; [apply Hp; lia|reflexivity].
    + eexists. split; [|exact Hs].
      exists (pages k). split; [apply Hp; lia|reflexivity].
    + assumption.
  - intros i Hi. split; [|now apply Hc].
    destruct (Hp i ltac:(lia)) as (H1 & H2 & _).
    exists (pages i). repeat split; try assumption.
    unfold main_soup. rewrite Htext by lia. reflexivity.
  - eexists. split; [|exact Hs].
    destruct (Hp k ltac:(lia)) as (H1 & H2 & _).
    exists (pages k). repeat split; try assumption.
    unfold main_soup. rewrite Htext by lia. reflexivity.
Qed.

Lemma variants_agree_on_plain_pages_witness :
  fst (Main.get_add_distributors Fixtures.parse Fixtures.guess
         Fixtures.two_pages 3)
  = fst (Async.get_add_distributors Fixtures.parse Fixtures.two_pages 3).
Proof.
  apply (variants_agree_on_plain_pages Fixtures.parse Fixtures.guess
           Fixtures.two_pages 2 0 Fixtures.two_responses).
  - intros i Hi. destruct i as [|[|[|i]]]; [| | |exfalso; lia];
      (split; [reflexivity|split; [reflexivity|now left]]).
  - intros i Hi. reflexivity.
  - intros i Hi. destruct i as [|[|i]]; [reflexivity|reflexivity|exfalso; lia].
  - reflexivity.
Defined.

(** *** What a run depends on *)

Lemma fetch_page_same_body s1 s2 url n :
  same_body (s1 url n) (s2 url n) ->
  Async.fetch_page s1 url n = Async.fetch_page s2 url n.
Proof.
  unfold Async.fetch_page, same_body, aiohttp_text.
  destruct (s1 url n) as [f1|r1], (s2 url n) as [f2|r2]; try contradiction.
  - now intros ->.
  - now intros ->.
Qed.

Lemma discover_same_body parse s1 s2 :
  (forall url n, same_body (s1 url n) (s2 url n)) ->
  forall fuel page tasks,
    Async.discover parse s1 fuel page tasks
    = Async.discover parse s2 fuel page tasks.
Proof.
  intros H. induction fuel as [|fuel IH]; intros page tasks; [reflexivity|].
  simpl. rewrite (fetch_page_same_body s1 s2 _ _ (H _ _)).
  destruct (Async.fetch_page s2 (current_url page) 0); [reflexivity|].
  destruct (has_data (parse s)); simpl; [|reflexivity].
  now rewrite IH.
Qed.

Lemma gather_same_body s1 s2 :
  (forall url n, same_body (s1 url n) (s2 url n)) ->
  forall tasks, Async.gather s1 tasks = Async.gather s2 tasks.
Proof.
  intros H. induction tasks as [|url tasks IH]; [reflexivity|].
  simpl. now rewrite (fetch_page_same_body s1 s2 _ _ (H _ _)), IH.
Qed.

(** X10. [async.py] reads nothing of a response but its body: two servers
    that raise alike and whose responses have the same bodies, whatever
    their status codes and announced charsets, give the same run. *)
Theorem async_reads_only_the_body parse s1 s2 fuel :
  (forall url n, same_body (s1 url n) (s2 url n)) ->
  Async.get_add_distributors parse s1 fuel
  = Async.get_add_distributors parse s2 fuel.
Proof.
  intros H. unfold Async.get_add_distributors.
  rewrite (discover_same_body parse s1 s2 H).
  destruct (Async.discover parse s2 fuel 0 []) as [[tasks|e|] log];
    try reflexivity.
  now rewrite (gather_same_body s1 s2 H).
Qed.

Lemma async_reads_only_the_body_witness :
  Async.get_add_distributors Fixtures.parse Fixtures.failing_with_listing 2
  = Async.get_add_distributors Fixtures.parse Fixtures.listing_ok 2.
Proof.
  apply async_reads_only_the_body. intros url n.
  unfold Fixtures.failing_with_listing, Fixtures.listing_ok, Fixtures.serving.
  cbn [Fixtures.lookup].
  destruct (String.eqb url (current_url 0)); [reflexivity|].
  destruct (String.eqb url (current_url 1)); reflexivity.
Defined.

Lemma scrape_same_for_main parse guess s1 s2 :
  (forall url, same_for_main (s1 url 0) (s2 url 0)) ->
  forall fuel page all_data,
    Main.scrape parse guess s1 fuel page all_data
    = Main.scrape parse guess s2 fuel page all_data.
Proof.
  intros H. induction fuel as [|fuel IH]; intros page all_data; [reflexivity|].
  simpl. unfold Main.requests_get.
  specialize (H (current_url page)). unfold same_for_main in H.
  destruct (s1 (current_url page) 0) as [f1|r1],
           (s2 (current_url page) 0) as [f2|r2]; try contradiction.
  - now subst.
  - destruct H as [Hst Hsame]. rewrite <- Hst.
    destruct (Nat.eqb_spec (status_code r1) 200) as [E|E]; [|reflexivity].
    rewrite <- (Hsame E).
    destruct (has_data _); [|reflexivity].
    destruct (process_page _); [reflexivity|].
    now rewrite IH.
Qed.

(** X11. Of a response whose status is not 200, [main.py] reads the
    status and nothing else, and it asks for each URL once: two servers
    whose first answers raise alike, have the same status, and are the
    same when that status is 200, give the same run. *)
Theorem main_reads_only_the_status_of_a_failure parse guess s1 s2 fuel :
  (forall url, same_for_main (s1 url 0) (s2 url 0)) ->
  Main.get_add_distributors parse guess s1 fuel
  = Main.get_add_distributors parse guess s2 fuel.
Proof.
  intros H. unfold Main.get_add_distributors.
  now rewrite (scrape_same_for_main parse guess s1 s2 H).
Qed.

Lemma main_reads_only_the_status_of_a_failure_witness :
  Main.get_add_distributors Fixtures.parse Fixtures.guess Fixtures.failing 1
  = Main.get_add_distributors Fixtures.parse Fixtures.guess
      Fixtures.failing_otherwise 1.
Proof.
  apply main_reads_only_the_status_of_a_failure. intros url.
  unfold Fixtures.failing, Fixtures.failing_otherwise, Fixtures.serving.
  cbn [Fixtures.lookup].
  destruct (String.eqb url (current_url 0)); [|reflexivity].
  split; [reflexivity|discriminate].
Defined.

(** *** A listing that does not end *)

(** X12. [main.py] has no bound on the pages it asks for: as long as
    every page continues the loop it keeps requesting the next one, and
    whatever the number of iterations it is given it has neither returned
    nor printed its closing lines. *)
Theorem main_goes_on_while_pages_continue parse guess server soups data :
  (forall i,
     main_page parse guess server i (soups i) /\
     has_data (soups i) = true /\ process_page (soups i) = ret (data i)) ->
  forall fuel,
    Main.get_add_distributors parse guess server fuel
    = (Running, flat_map main_round (seq 0 fuel)).
Proof.
  intros H fuel. unfold Main.get_add_distributors.
  rewrite <- (Nat.add_0_r fuel) at 1.
  rewrite (scrape_prefix parse guess server fuel 0 [] 0 soups data)
    by (intros i _; apply H).
  simpl. now rewrite app_nil_r.
Qed.

Lemma main_goes_on_while_pages_continue_witness :
  Main.get_add_distributors Fixtures.parse Fixtures.guess Fixtures.endless 2
  = (Running,
     [Print (Processing 1); Request 0; Evaluated 0 true;
      Print (Processing 2); Request 1; Evaluated 1 true]).
Proof.
  apply (main_goes_on_while_pages_continue Fixtures.parse Fixtures.guess
           Fixtures.endless
           (fun _ => Fixtures.listing_tree (lit "Acme Pharma") (lit "CA"))
           (fun _ => [Fixtures.acme_record])).
  intros i. split; [|split; reflexivity].
  exists Fixtures.acme_response. repeat split; reflexivity.
Defined.

(** X13. In [async.py] no task is awaited and no record extracted before
    the first loop has ended: as long as every page continues, the run
    has created one task per iteration and is still in that loop. *)
Theorem async_piles_up_tasks_while_pages_continue parse server texts :
  (forall i,
     async_text server i 0 (texts i) /\ has_data (parse (texts i)) = true) ->
  forall fuel,
    Async.get_add_distributors parse server fuel
    = (Running, flat_map async_round (seq 0 fuel))
    /\ count_where task_made (fun _ => true)
         (snd (Async.get_add_distributors parse server fuel)) = fuel
    /\ ~ In Gathered (snd (Async.get_add_distributors parse server fuel)).
Proof.
  intros H fuel.
  assert (Hrun : Async.get_add_distributors parse server fuel
                 = (Running, flat_map async_round (seq 0 fuel))).
  { unfold Async.get_add_distributors.
    rewrite <- (Nat.add_0_r fuel) at 1.
    rewrite (discover_prefix parse server fuel 0 [] 0 texts)
      by (intros i _; apply H).
    simpl. now rewrite app_nil_r. }
  rewrite Hrun. simpl. repeat split.
  - now rewrite count_rounds_made, count_seq_all.
  - intros Hin. apply in_async_rounds in Hin.
    destruct Hin as (i & _ & [E|[E|[E|[E|[]]]]]); discriminate.
Qed.

Lemma async_piles_up_tasks_while_pages_continue_witness :
  count_where task_made (fun _ => true)
    (snd (Async.get_add_distributors Fixtures.parse Fixtures.endless 3)) = 3.
Proof.
  refine (proj1 (proj2 (async_piles_up_tasks_while_pages_continue
            Fixtures.parse Fixtures.endless
            (fun _ => Fixtures.listing_text (lit "Acme Pharma") (lit "CA"))
            _ 3))).
  intros i. split; [|reflexivity].
  exists Fixtures.acme_response. split; reflexivity.
Defined.

(** *** A page that changes between its two requests *)

Lemma drain_cut parse l1 t l2 : forall all_data,
  (forall x, In x l1 -> has_data (parse x) = true) ->
  has_data (parse t) = false ->
  Async.drain parse (l1 ++ t :: l2) all_data = collect (map parse l1) all_data.
Proof.
  induction l1 as [|x l1 IH]; intros all_data Hl1 Ht; simpl.
  - now rewrite Ht.
  - rewrite (Hl1 x (or_introl eq_refl)).
    destruct (process_page (parse x)); simpl; [reflexivity|].
    apply IH; [|assumption]. intros y Hy. apply Hl1. now right.
Qed.

(** X14. The last loop of [async.py] evaluates the loop condition again,
    on the tasks' responses, and ends at the first on which it fails: when
    the second response of page [j] has no data, the result is made of
    the pages before [j] only, and the records in the responses of the
    later pages are left out without a message. *)
Theorem emptied_page_cuts_the_output
  parse server p j extra (first second : nat -> str) :
  (forall i, i < p ->
     async_text server i 0 (first i) /\ has_data (parse (first i)) = true) ->
  (exists t, async_text server p 0 t /\ has_data (parse t) = false) ->
  (forall i, i < p -> async_text server i 1 (second i)) ->
  j < p ->
  (forall i, i < j -> has_data (parse (second i)) = true) ->
  has_data (parse (second j)) = false ->
  fst (Async.get_add_distributors parse server (S p + extra))
  = completion_of (collect (map (fun i => parse (second i)) (seq 0 j)) []).
Proof.
  intros Hc Hs Hsec Hj Hbefore Hcut.
  rewrite (async_until_stop parse server p extra first second Hc Hs Hsec).
  cbv zeta.
  replace (seq 0 p) with (seq 0 j ++ j :: seq (S j) (p - S j)).
  2:{ replace p with (j + S (p - S j)) at 2 by lia.
      now rewrite seq_app. }
  rewrite map_app. cbn [map].
  rewrite (drain_cut parse (map second (seq 0 j)) (second j)).
  - rewrite map_map.
    now destruct (collect (map (fun i => parse (second i)) (seq 0 j)) []).
  - intros x Hx. apply in_map_iff in Hx. destruct Hx as (i & <- & Hi).
    apply in_seq in Hi. apply Hbefore. lia.
  - assumption.
Qed.

Lemma emptied_page_cuts_the_output_witness :
  fst (Async.get_add_distributors Fixtures.parse Fixtures.emptied 3)
  = Returned [].
Proof.
  apply (emptied_page_cuts_the_output Fixtures.parse Fixtures.emptied 2 0 0
           Fixtures.emptied_first Fixtures.emptied_second).
  - intros i Hi. destruct i as [|[|i]]; [| |exfalso; lia].
    + split; [|reflexivity].
      exists Fixtures.acme_response. split; reflexivity.
    + split; [|reflexivity].
      exists Fixtures.beta_response. split; reflexivity.
  - exists Fixtures.empty_text. split; [|reflexivity].
    exists Fixtures.empty_response. split; reflexivity.
  - intros i Hi. destruct i as [|[|i]]; [| |exfalso; lia].
    + exists Fixtures.empty_response. split; reflexivity.
    + exists Fixtures.beta_response. split; reflexivity.
  - lia.
  - intros i Hi. exfalso. lia.
  - reflexivity.
Defined.

(** *** Pages that cannot be extracted (C1, C4) *)

(** C1. A page sequence whose first page classified [Stop] has index 2:
    page 0 is a listing, page 1 is classified [Continue] and holds its
    cell without a row around it, page 2 is the empty container.  In both
    variants the [AttributeError] of [process_page] on page 1 leaves
    [get_add_distributors]: no result comes out, the records of page 0
    included. *)
Theorem rowless_page_leaves_no_result :
  (main_page Fixtures.parse Fixtures.guess Fixtures.rowless_later 0
     (Fixtures.listing_tree (lit "Acme Pharma") (lit "CA"))
   /\ classify (Fixtures.listing_tree (lit "Acme Pharma") (lit "CA"))
      = Continue)
  /\ (main_page Fixtures.parse Fixtures.guess Fixtures.rowless_later 1
        Fixtures.rowless_tree
      /\ classify Fixtures.rowless_tree = Continue)
  /\ (main_page Fixtures.parse Fixtures.guess Fixtures.rowless_later 2
        Fixtures.empty_tree
      /\ classify Fixtures.empty_tree = Stop)
  /\ Main.get_add_distributors Fixtures.parse Fixtures.guess
       Fixtures.rowless_later 3
     = (Uncaught AttributeError,
        [Print (Processing 1); Request 0; Evaluated 0 true;
         Print (Processing 2); Request 1; Evaluated 1 true])
  /\ fst (Async.get_add_distributors Fixtures.parse Fixtures.rowless_later 3)
     = Uncaught AttributeError.
Proof.
  repeat split; try (vm_compute; reflexivity).
  - exists Fixtures.acme_response. repeat split; reflexivity.
  - exists Fixtures.rowless_response. repeat split; reflexivity.
  - exists Fixtures.empty_response. repeat split; reflexivity.
Qed.

(** C4. Extraction does not return on every page: on a table without any
    [tr], be it empty or with cells placed directly in it, the access to
    the first row finds [None] and [process_page] raises instead of
    giving the empty sequence of records. *)
Theorem table_without_rows_raises :
  (exists div_info table,
     find_class "div" "info" Fixtures.empty_table_tree = Some div_info /\
     find "table" div_info = Some table /\
     find_all "tr" table = [])
  /\ process_page Fixtures.empty_table_tree = raise AttributeError
  /\ (exists div_info table,
        find_class "div" "info" Fixtures.rowless_tree = Some div_info /\
        find "table" div_info = Some table /\
        find_all "tr" table = [])
  /\ process_page Fixtures.rowless_tree = raise AttributeError.
Proof.
  repeat split; try reflexivity;
    (eexists; eexists; repeat split; reflexivity).
Qed.

(** *** Extraction, by the tree *)

Lemma find_none_inside (P : node -> Prop) (f : node -> bool) n :
  (forall y, P y <-> f y = true) ->
  (forall x, inside n x -> ~ P x) ->
  hd_error (filter f (descendants n)) = None.
Proof.
  intros Hpf Hnone.
  rewrite (proj2 (filter_nil_none f (descendants n))); [reflexivity|].
  intros x Hx. apply descendants_inside in Hx.
  destruct (f x) eqn:E; [|reflexivity].
  exfalso. apply (Hnone x Hx). now apply Hpf.
Qed.

(** X16. Extraction on a page whose table has a first row.  The container
    is the first [div] with class [info] of the document, the table the
    first [table] inside it.  When no node of the document is such a
    [div], or none inside the container is a [table], the result is the
    empty list.  Otherwise, with the [tr] rows of the table in document
    order: the headers are the texts of the first row's [th] cells; there
    is one record per later row that has [td] cells, in row order, and
    rows without cells are left out; in a record the header at a position
    maps to the cell at that position (the last such position, should a
    header repeat), a header whose positions all lie beyond the row's
    cells is not a key, and with distinct headers the record is exactly
    the positional pairing cut at the shorter of the two. *)
Theorem extraction_follows_the_rows (soup : node) :
  ((forall x, inside soup x -> ~ is_info_div x) -> process_page soup = ret [])
  /\ (forall div_info,
        first_inside is_info_div soup div_info ->
        (forall x, inside div_info x -> ~ is_named "table" x) ->
        process_page soup = ret [])
  /\ (forall div_info table first_row rows,
        first_inside is_info_div soup div_info ->
        first_inside (is_named "table") div_info table ->
        find_all "tr" table = first_row :: rows ->
        let headers := map text (find_all "th" first_row) in
        process_page soup =
          ret (map (record_of headers) (filter has_cells rows))
        /\ forall row,
             let cells := row_cells row in
             (forall i h c,
                 nth_error headers i = Some h ->
                 nth_error cells i = Some c ->
                 (forall j, i < j -> j < List.length cells ->
                            nth_error headers j <> Some h) ->
                 get (record_of headers row) h = Some c)
             /\ (forall h, ~ In h (firstn (List.length cells) headers) ->
                           get (record_of headers row) h = None)
             /\ (NoDup headers ->
                 record_of headers row = combine headers cells)).
Proof.
  destruct (process_page_extracts soup) as (H1 & H2 & H3).
  split; [|split].
  - intros Hnone. apply H1.
    exact (find_none_inside is_info_div _ soup is_info_div_tag Hnone).
  - intros d Hd Hnone. apply (H2 d).
    + now apply find_class_first_inside.
    + exact (find_none_inside (is_named "table") _ d
               (is_named_tag "table") Hnone).
  - intros d t r0 rows Hd Ht Hrows.
    apply (H3 d t r0 rows); [|  |assumption].
    + now apply find_class_first_inside.
    + now apply find_first_inside.
Qed.

Lemma extraction_follows_the_rows_witness :
  process_page (Fixtures.listing_tree (lit "Acme Pharma") (lit "CA"))
  = ret [Fixtures.acme_record].
Proof.
  refine (proj1 (proj2 (proj2 (extraction_follows_the_rows
           (Fixtures.listing_tree (lit "Acme Pharma") (lit "CA"))))
           Fixtures.acme_div Fixtures.acme_table
           Fixtures.header_row [Fixtures.acme_row] _ _ eq_refl)).
  - apply find_class_first_inside. reflexivity.
  - apply find_first_inside. reflexivity.
Defined.

(** *** Rows within rows *)

Lemma filter_split {A} (f : A -> bool) (l : list A) : forall a x b,
  filter f l = a ++ x :: b ->
  exists p q, l = p ++ x :: q /\ filter f p = a /\ filter f q = b.
Proof.
  induction l as [|y l IH]; intros a x b H; simpl in H.
  - destruct a; discriminate.
  - destruct (f y) eqn:E.
    + destruct a as [|a0 a]; simpl in H; injection H as Hy Hl.
      * rewrite <- Hy, <- Hl. exists [], l. repeat split.
      * destruct (IH a x b Hl) as (p & q & Hpq & Hp & Hq).
        exists (y :: p), q. simpl. rewrite E, Hp, Hpq, Hy.
        repeat split. assumption.
    + destruct (IH a x b H) as (p & q & Hpq & Hp & Hq).
      exists (y :: p), q. simpl. rewrite E, Hpq.
      repeat split; assumption.
Qed.

(** In document order a node is followed at once by what lies below it. *)
Lemma descendants_occurrence n : forall p x q,
  descendants n = p ++ x :: q -> exists q', q = descendants x ++ q'.
Proof.
  induction n as [s|s|name cls cs IH] using node_ind; intros p x q H;
    try (destruct p; discriminate).
  rewrite descendants_tag in H. unfold descendants_of_list in H.
  revert p H. induction cs as [|c cs IHcs]; intros p H;
    [destruct p; discriminate|].
  inversion IH as [|c' cs' Hc Hcs]. clear IH. subst c' cs'.
  cbn [flat_map] in H.
  destruct p as [|p0 p]; simpl in H; injection H as H0 H1.
  - rewrite <- H0, <- H1. eexists. reflexivity.
  - apply app_eq_app in H1. destruct H1 as (l & [[H1 H2]|[H1 H2]]).
    + destruct l as [|l0 l]; simpl in H2.
      * apply (IHcs Hcs []). simpl. now symmetry.
      * injection H2 as Hl0 Hq. rewrite <- Hl0 in H1.
        destruct (Hc p x l H1) as (q' & Hq').
        exists (q' ++ flat_map (fun c => c :: descendants c) cs).
        rewrite Hq, Hq'. now rewrite app_assoc.
    + apply (IHcs Hcs l). now symmetry.
Qed.

(** A row found inside a later row of the table is a later row itself. *)
Lemma nested_row_is_a_later_row table first_row rows row inner :
  find_all "tr" table = first_row :: rows ->
  In row rows ->
  In inner (find_all "tr" row) ->
  In inner rows.
Proof.
  intros Hrows Hrow Hinner.
  apply in_split in Hrow. destruct Hrow as (r1 & r2 & ->).
  unfold find_all in Hrows.
  destruct (filter_split (is_tag "tr") (descendants table)
              (first_row :: r1) row r2 Hrows) as (p & q & Hd & _ & Hq).
  destruct (descendants_occurrence table p row q Hd) as (q' & ->).
  rewrite filter_app in Hq. rewrite <- Hq.
  apply in_or_app. right. right. apply in_or_app. now left.
Qed.

(** X6. Rows are taken at every depth.  A row with cells that lies inside
    a later row of the table (in a table of its own within a cell) gives
    a record of its own, beside the record of the enclosing row; and the
    texts of its cells are among the cell texts the enclosing row's record
    is paired from. *)
Theorem nested_rows_give_records_too
  soup div_info table first_row rows row inner :
  first_inside is_info_div soup div_info ->
  first_inside (is_named "table") div_info table ->
  find_all "tr" table = first_row :: rows ->
  In row rows ->
  In inner (find_all "tr" row) ->
  has_cells inner = true ->
  let headers := map text (find_all "th" first_row) in
  exists records,
    process_page soup = ret records
    /\ In (record_of headers inner) records
    /\ In (record_of headers row) records
    /\ incl (row_cells inner) (row_cells row).
Proof.
  intros Hd Ht Hrows Hrow Hinner Hcells headers.
  assert (Hincl : incl (row_cells inner) (row_cells row)).
  { intros c Hc. unfold row_cells in *. apply in_map_iff in Hc.
    destruct Hc as (cell & <- & Hcell). apply in_map.
    assert (Hr : In row (find_all "tr" table))
      by (rewrite Hrows; now right).
    now apply (proj2 (nested_rows_share_their_cells table row inner
                        Hr Hinner)). }
  assert (Hrc : has_cells row = true).
  { unfold has_cells in *. destruct (row_cells inner) as [|c cs] eqn:E;
      [discriminate|].
    destruct (row_cells row); [|reflexivity].
    destruct (Hincl c (or_introl eq_refl)). }
  apply find_class_first_inside in Hd. apply find_first_inside in Ht.
  destruct (proj2 (proj2 (process_page_extracts soup))
              div_info table first_row rows Hd Ht Hrows) as [Hpp _].
  eexists. split; [exact Hpp|]. repeat split; try assumption.
  - apply in_map. apply filter_In. split; [|assumption].
    now apply (nested_row_is_a_later_row table first_row rows row inner).
  - apply in_map. apply filter_In. now split.
Qed.

Lemma nested_rows_give_records_too_witness :
  exists records,
    process_page Fixtures.nested_tree = ret records
    /\ In (record_of (map text (find_all "th" Fixtures.header_row))
             Fixtures.inner_row) records
    /\ In (record_of (map text (find_all "th" Fixtures.header_row))
             Fixtures.outer_row) records
    /\ incl (row_cells Fixtures.inner_row) (row_cells Fixtures.outer_row).
Proof.
  apply (nested_rows_give_records_too Fixtures.nested_tree
           Fixtures.nested_div Fixtures.nested_table Fixtures.header_row
           [Fixtures.outer_row; Fixtures.inner_row]).
  - apply find_class_first_inside. reflexivity.
  - apply find_first_inside. reflexivity.
  - reflexivity.
  - now left.
  - simpl. tauto.
  - reflexivity.
Defined.
